(** * Pedestrian tracking pipeline of [peddetect/backend/app.py]

    A shallow embedding of [_detect_and_annotate]: the per-frame summary
    counters, the greedy nearest-centroid association of detections to
    tracks, the speed classification used by the annotator, and the
    run-level result; then of [_load_allowed_origins] and of the
    [process_video] handler with the files it creates and removes.

    What is kept abstract:
    - the HOG detector: a frame is represented by the boxes that
      [hog.detectMultiScale] returns for it (a detector or codec
      exception in the middle of the loop is not represented);
    - pixels, the encoder and the drawing primitives: the annotator is
      represented by the list of (box, label) pairs it draws; the frame
      rate only configures the encoder and is left out;
    - [np.linalg.norm] and [np.mean]: library functions over binary64
      values, taken as parameters of the development (a reference
      instance is given for running examples).

    Python [int] is [Z]; [float]/[np.float64] is the kernel's binary64
    [float]. *)

From Stdlib Require Import String.
From Stdlib Require Import ZArith NArith Ascii List Bool Lia Permutation Sorted.
From Stdlib Require Import Floats.PrimFloat Floats.SpecFloat Floats.FloatOps
  Floats.FloatAxioms Numbers.Cyclic.Int63.Uint63.
Import ListNotations.

Local Open Scope Z_scope.

(** ** Module constants *)

Definition MAX_REPORTED_FRAMES : Z := 50.
Definition TRACK_DISTANCE_THRESHOLD : float := 80.0%float.
Definition TRACK_MAX_MISSES : Z := 10.
Definition SLOW_SPEED_THRESHOLD : float := 60.0%float.
Definition FAST_SPEED_THRESHOLD : float := 150.0%float.

(** ** Data *)

(** A row [(x, y, w, h)] of the array returned by the detector. *)
Definition Box : Type := (Z * Z * Z * Z)%type.

(** The dict [{"x": .., "y": .., "w": .., "h": ..}] stored per detection. *)
Record Detection : Type := mkDetection
  { det_x : Z; det_y : Z; det_w : Z; det_h : Z }.

(** A two-element [np.ndarray] of floats. *)
Definition point : Type := (float * float)%type.

(** The track dict.  [last_detection] is read with [dict.get], which may
    yield [None]; hence the option. *)
Record Track : Type := mkTrack
  { position : point;
    velocity_samples : list float;
    misses : Z;
    last_detection : option Detection }.

(** One entry of [unmatched_centers]. *)
Definition candidate : Type := (Detection * point)%type.

(** One entry of [reported_frames]. *)
Record FrameReport : Type := mkFrameReport
  { frame_index : Z; count : Z; boxes : list Detection }.

Inductive speed_label : Type := fast | slow | normal.

(** What the annotator draws for one track: the rectangle of its box and
    the text ["speed: <label>"]. *)
Definition Annotation : Type := (Detection * speed_label)%type.

(** The dict returned by [_detect_and_annotate]. *)
Record RunSummary : Type := mkRunSummary
  { sum_total_frames : Z;
    sum_frames_with_detections : Z;
    sum_total_detections : Z;
    sum_reported_frames : list FrameReport }.

Inductive error : Type := ValueError (msg : string).

(** The local variables of the frame loop. *)
Record LoopState : Type := mkLoopState
  { total_frames : Z;
    frames_with_detections : Z;
    total_detections : Z;
    reported_frames : list FrameReport;
    tracks : list Track;
    written : list (list Annotation) }.

(** What [cv2.VideoCapture] and [imageio.get_writer] give for an input:
    whether the capture opened, the integer width and height read from
    its metadata, whether the encoder could be initialised, and, per
    decoded frame, the boxes found by the detector. *)
Record VideoSource : Type := mkVideoSource
  { is_opened : bool;
    src_width : Z;
    src_height : Z;
    writer_ok : bool;
    src_frames : list (list Box) }.

(** ** Float helpers *)

(** Conversion of an integer pixel coordinate to binary64 (exact below
    2^53 in magnitude). *)
Definition float_of_Z (z : Z) : float :=
  match z with
  | Z0 => 0%float
  | Zpos _ => of_uint63 (Uint63.of_Z z)
  | Zneg p => PrimFloat.opp (of_uint63 (Uint63.of_Z (Zpos p)))
  end.

(** [center - track["position"]] on two-element arrays. *)
Definition vsub (a b : point) : point :=
  (PrimFloat.sub (fst a) (fst b), PrimFloat.sub (snd a) (snd b)).

(** [np.array([float(x + w / 2), float(y + h / 2)])]. *)
Definition center_of (b : Box) : point :=
  let '(x, y, w, h) := b in
  (PrimFloat.add (float_of_Z x) (PrimFloat.div (float_of_Z w) 2%float),
   PrimFloat.add (float_of_Z y) (PrimFloat.div (float_of_Z h) 2%float)).

(** [{"x": int(x), "y": int(y), "w": int(w), "h": int(h)}]. *)
Definition detection_of (b : Box) : Detection :=
  let '(x, y, w, h) := b in mkDetection x y w h.

(** [list.pop(idx)], keeping the list.  Python raises [IndexError] when
    [idx] is out of range; the loop only pops an index produced by
    [enumerate] over the same list (see [select_match_some]), and this
    definition leaves the list as it is otherwise. *)
Definition pop {A : Type} (idx : nat) (l : list A) : list A :=
  firstn idx l ++ skipn (S idx) l.

(** ** The pipeline, parameterised by the numpy functions *)

Section Pipeline.

(** [np.linalg.norm] on a two-element array. *)
Variable norm : point -> float.
(** [float(np.mean(samples))] on a non-empty list. *)
Variable mean : list float -> float.

(** The inner [for idx, (det, center) in enumerate(unmatched_centers)]
    loop, started at index [idx] with the current [best_match] and
    [best_distance]. *)
Fixpoint find_best (pos : point) (pool : list candidate) (idx : nat)
    (best_match : option (nat * Detection * point)) (best_distance : float)
    : option (nat * Detection * point) * float :=
  match pool with
  | [] => (best_match, best_distance)
  | (det, center) :: rest =>
      let distance := norm (vsub center pos) in
      if PrimFloat.ltb distance best_distance
      then find_best pos rest (S idx) (Some (idx, det, center)) distance
      else find_best pos rest (S idx) best_match best_distance
  end.

(** The test [best_match and best_distance <= TRACK_DISTANCE_THRESHOLD]:
    the tuple to commit when it holds. *)
Definition select_match (track : Track) (pool : list candidate)
    : option (nat * Detection * point) :=
  let '(best_match, best_distance) :=
    find_best (position track) pool 0%nat None infinity in
  match best_match with
  | Some m =>
      if PrimFloat.leb best_distance TRACK_DISTANCE_THRESHOLD
      then Some m else None
  | None => None
  end.

(** The track after the [if] branch. *)
Definition commit (track : Track) (det : Detection) (center : point) : Track :=
  let displacement := norm (vsub center (position track)) in
  {| position := center;
     velocity_samples := velocity_samples track ++ [displacement];
     misses := 0;
     last_detection := Some det |}.

(** The track after [track["misses"] += 1]. *)
Definition miss (track : Track) : Track :=
  {| position := position track;
     velocity_samples := velocity_samples track;
     misses := misses track + 1;
     last_detection := last_detection track |}.

(** One iteration of [for track in tracks]: the new [updated_tracks]
    and [unmatched_centers]. *)
Definition associate_track (track : Track)
    (updated_tracks : list Track) (unmatched_centers : list candidate)
    : list Track * list candidate :=
  match select_match track unmatched_centers with
  | Some (idx, det, center) =>
      (updated_tracks ++ [commit track det center],
       pop idx unmatched_centers)
  | None =>
      let track' := miss track in
      if misses track' <=? TRACK_MAX_MISSES
      then (updated_tracks ++ [track'], unmatched_centers)
      else (updated_tracks, unmatched_centers)
  end.

Fixpoint associate_tracks (tracks : list Track)
    (updated_tracks : list Track) (unmatched_centers : list candidate)
    : list Track * list candidate :=
  match tracks with
  | [] => (updated_tracks, unmatched_centers)
  | track :: rest =>
      let '(updated_tracks', unmatched_centers') :=
        associate_track track updated_tracks unmatched_centers in
      associate_tracks rest updated_tracks' unmatched_centers'
  end.

(** The dict appended for a candidate left in [unmatched_centers]. *)
Definition new_track (c : candidate) : Track :=
  {| position := snd c;
     velocity_samples := [];
     misses := 0;
     last_detection := Some (fst c) |}.

(** The body of [if centers:], giving the new value of [tracks]. *)
Definition associate (tracks : list Track)
    (frame_detections : list Detection) (centers : list point) : list Track :=
  let unmatched_centers := combine frame_detections centers in
  let '(updated_tracks, unmatched_centers') :=
    associate_tracks tracks [] unmatched_centers in
  updated_tracks ++ map new_track unmatched_centers'.

(** The tracking part of one frame, guarded by [if centers:]. *)
Definition update_tracks (tracks : list Track)
    (frame_detections : list Detection) (centers : list point) : list Track :=
  match centers with
  | [] => tracks
  | _ :: _ => associate tracks frame_detections centers
  end.

(** The label computed while drawing a track. *)
Definition classify (track : Track) : speed_label :=
  let avg_speed :=
    match velocity_samples track with
    | [] => 0.0%float
    | _ :: _ => mean (velocity_samples track)
    end in
  if PrimFloat.leb FAST_SPEED_THRESHOLD avg_speed then fast
  else if PrimFloat.leb avg_speed SLOW_SPEED_THRESHOLD then slow
  else normal.

(** One iteration of the drawing loop: [None] is the [continue] taken
    when the track has no [last_detection].  (A detection dict always
    has its four keys, so [not det] only holds for [None].) *)
Definition annotate_track (track : Track) : option Annotation :=
  match last_detection track with
  | None => None
  | Some det => Some (det, classify track)
  end.

Fixpoint annotate (tracks : list Track) : list Annotation :=
  match tracks with
  | [] => []
  | track :: rest =>
      match annotate_track track with
      | Some a => a :: annotate rest
      | None => annotate rest
      end
  end.

(** The [if frame_detections:] block on the summary counters. *)
Definition record_detections (st : LoopState)
    (frame_detections : list Detection) : LoopState :=
  match frame_detections with
  | [] => st
  | _ :: _ =>
      let n := Z.of_nat (length frame_detections) in
      {| total_frames := total_frames st;
         frames_with_detections := frames_with_detections st + 1;
         total_detections := total_detections st + n;
         reported_frames :=
           if Z.of_nat (length (reported_frames st)) <? MAX_REPORTED_FRAMES
           then reported_frames st ++
                [ {| frame_index := total_frames st;
                     count := n;
                     boxes := frame_detections |} ]
           else reported_frames st;
         tracks := tracks st;
         written := written st |}
  end.

(** One iteration of [while True] for a frame that was read. *)
Definition process_frame (st : LoopState) (frame : list Box) : LoopState :=
  let frame_detections := map detection_of frame in
  let centers := map center_of frame in
  let st1 := record_detections st frame_detections in
  let tracks' := update_tracks (tracks st1) frame_detections centers in
  {| total_frames := total_frames st1 + 1;
     frames_with_detections := frames_with_detections st1;
     total_detections := total_detections st1;
     reported_frames := reported_frames st1;
     tracks := tracks';
     written := written st1 ++ [annotate tracks'] |}.

Definition initial_state : LoopState :=
  {| total_frames := 0;
     frames_with_detections := 0;
     total_detections := 0;
     reported_frames := [];
     tracks := [];
     written := [] |}.

(** The whole loop: [cap.read()] yields the frames in order and then
    fails, which leaves the loop. *)
Definition run_frames (frames : list (list Box)) : LoopState :=
  fold_left process_frame frames initial_state.

Definition detect_and_annotate (src : VideoSource) : error + RunSummary :=
  if negb (is_opened src)
  then inl (ValueError "Unable to open the uploaded video.")
  else if (src_width src =? 0) || (src_height src =? 0)
  then inl (ValueError
    "Video metadata could not be read; ensure the file is a valid video.")
  else if negb (writer_ok src)
  then inl (ValueError
    "Unable to initialise the video encoder; ensure FFmpeg is available.")
  else
    let st := run_frames (src_frames src) in
    if total_frames st =? 0
    then inl (ValueError
      "No frames detected; the uploaded file may be corrupted.")
    else inr {| sum_total_frames := total_frames st;
                sum_frames_with_detections := frames_with_detections st;
                sum_total_detections := total_detections st;
                sum_reported_frames := reported_frames st |}.

(** *** Specification-side definitions

    These are not in the source; they name what the loops compute so
    that the properties below can be stated. *)

(** For each track, in iteration order, the candidate it claims
    ([None] when the track is not matched). *)
Fixpoint assignment (tracks : list Track) (pool : list candidate)
    : list (option candidate) :=
  match tracks with
  | [] => []
  | track :: rest =>
      match select_match track pool with
      | Some (idx, det, center) =>
          Some (det, center) :: assignment rest (pop idx pool)
      | None => None :: assignment rest pool
      end
  end.

(** The candidates claimed by some track. *)
Fixpoint claimed (a : list (option candidate)) : list candidate :=
  match a with
  | [] => []
  | Some c :: rest => c :: claimed rest
  | None :: rest => claimed rest
  end.

(** What a track contributes to [updated_tracks], given its claim. *)
Definition outcome (track : Track) (a : option candidate) : list Track :=
  match a with
  | Some (det, center) => [commit track det center]
  | None =>
      if misses track + 1 <=? TRACK_MAX_MISSES then [miss track] else []
  end.

Fixpoint outcomes (tracks : list Track) (a : list (option candidate))
    : list Track :=
  match tracks, a with
  | track :: rest, x :: a' => outcome track x ++ outcomes rest a'
  | _, _ => []
  end.

End Pipeline.

(** The frame reports of all frames with at least one box, the first
    frame having index [start]. *)
Fixpoint detection_reports (start : Z) (frames : list (list Box))
    : list FrameReport :=
  match frames with
  | [] => []
  | [] :: rest => detection_reports (start + 1) rest
  | (_ :: _) as frame :: rest =>
      {| frame_index := start;
         count := Z.of_nat (length frame);
         boxes := map detection_of frame |}
      :: detection_reports (start + 1) rest
  end.

(** The number of boxes over all frames. *)
Fixpoint count_boxes (frames : list (list Box)) : Z :=
  match frames with
  | [] => 0
  | frame :: rest => Z.of_nat (length frame) + count_boxes rest
  end.

(** Ageing as the specification words it for a frame without
    detections: every track misses once, and the tracks whose counter
    then exceeds [TRACK_MAX_MISSES] are dropped. *)
Definition spec_aged_store (tracks : list Track) : list Track :=
  filter (fun t => misses t <=? TRACK_MAX_MISSES) (map miss tracks).

(** ** A reference instance of the numpy functions *)

Definition norm2 (v : point) : float :=
  PrimFloat.sqrt
    (PrimFloat.add (PrimFloat.mul (fst v) (fst v))
                   (PrimFloat.mul (snd v) (snd v))).

Definition mean_seq (l : list float) : float :=
  PrimFloat.div (fold_left PrimFloat.add l 0%float)
                (float_of_Z (Z.of_nat (length l))).

(** ** Sample inputs *)

Definition box_a : Detection := mkDetection 10 20 40 80.

Definition origin : point := (0%float, 0%float).

(** A track as it is right after its creation at [origin]. *)
Definition fresh_track : Track := new_track (box_a, origin).

(** A track that has gone unmatched [m] times. *)
Definition stale_track (m : Z) : Track :=
  {| position := origin;
     velocity_samples := [];
     misses := m;
     last_detection := Some box_a |}.

(** A track at position [p] carrying the samples [vs]. *)
Definition track_at (p : point) (vs : list float) : Track :=
  {| position := p;
     velocity_samples := vs;
     misses := 0;
     last_detection := Some box_a |}.

Definition box_b : Detection := mkDetection 20 0 40 80.

(** A pool whose only candidate is 200 pixels away from [origin]. *)
Definition far_pool : list candidate := [(box_a, (200%float, 0%float))].

(** A pool with a far candidate and one at distance 50 from [origin]. *)
Definition mixed_pool : list candidate :=
  [(box_a, (200%float, 0%float)); (box_b, (30%float, 40%float))].

(** One candidate at (40, 0): 40 pixels from [origin], 10 pixels from
    (50, 0). *)
Definition contested_pool : list candidate := [(box_b, (40%float, 0%float))].

(** A source of [n] frames, each with the one box (10, 20, 40, 80). *)
Definition steady_source (n : nat) : VideoSource :=
  {| is_opened := true;
     src_width := 640;
     src_height := 480;
     writer_ok := true;
     src_frames := repeat [(10, 20, 40, 80)] n |}.

Definition state_with (ts : list Track) : LoopState :=
  {| total_frames := 3;
     frames_with_detections := 1;
     total_detections := 1;
     reported_frames := [];
     tracks := ts;
     written := [] |}.

(** * The rest of the module *)

(** ** Frame rate handed to the encoder *)

(** [cap.get(cv2.CAP_PROP_FPS) or 24.0]: a float is falsy exactly when
    it compares equal to zero. *)
Definition fps_or_default (fps : float) : float :=
  if PrimFloat.eqb fps 0%float then 24.0%float else fps.

(** Python's two-argument [max(a, b)]: [b] when [b > a], else [a]. *)
Definition py_max (a b : float) : float :=
  if PrimFloat.ltb a b then b else a.

(** The [fps] argument of [imageio.get_writer]:
    [max(float(fps), 1.0)] with [fps] as read above. *)
Definition writer_fps (fps_read : float) : float :=
  py_max (fps_or_default fps_read) 1.0%float.

(** ** Counting frames with detections *)

(** The number of frames with at least one box. *)
Fixpoint count_detected (frames : list (list Box)) : Z :=
  match frames with
  | [] => 0
  | [] :: rest => count_detected rest
  | (_ :: _) :: rest => 1 + count_detected rest
  end.

Definition has_boxes (frame : list Box) : bool :=
  match frame with [] => false | _ :: _ => true end.

(** ** Reading a store *)

(** The detector row a detection dict was built from. *)
Definition box_of (d : Detection) : Box :=
  (det_x d, det_y d, det_w d, det_h d).

(** A track matched or created in the frame just processed. *)
Definition seen_now (t : Track) : bool := misses t =? 0.

(** The box a track shows and where the track is. *)
Definition shown (t : Track) : option Detection * point :=
  (last_detection t, position t).

(** ** [_load_allowed_origins] *)

(** A Python [str] as its sequence of code points. *)
Definition pystr : Type := list N.

Definition pystr_of (s : string) : pystr :=
  map N_of_ascii (list_ascii_of_string s).

Definition comma : N := 44%N.

Definition DEFAULT_ALLOWED_ORIGINS : list pystr :=
  [ pystr_of "http://localhost:3000";
    pystr_of "http://127.0.0.1:3000";
    pystr_of "http://localhost:3001";
    pystr_of "http://127.0.0.1:3001" ].

(** [s.split(",")]: the pieces between commas; never an empty list. *)
Fixpoint split_comma (s : pystr) : list pystr :=
  match s with
  | [] => [[]]
  | c :: rest =>
      if N.eqb c comma then [] :: split_comma rest
      else match split_comma rest with
           | piece :: pieces => (c :: piece) :: pieces
           | [] => [[c]]
           end
  end.

(** [",".join(pieces)]; only used to state what [split_comma] keeps. *)
Fixpoint join_comma (pieces : list pystr) : pystr :=
  match pieces with
  | [] => []
  | [piece] => piece
  | piece :: rest => piece ++ comma :: join_comma rest
  end.

Section Origins.

(** The whitespace test of [str.strip()]. *)
Variable is_space : N -> bool.

Fixpoint lstrip (s : pystr) : pystr :=
  match s with
  | [] => []
  | c :: rest => if is_space c then lstrip rest else s
  end.

Definition rstrip (s : pystr) : pystr := rev (lstrip (rev s)).

(** [s.strip()]. *)
Definition strip (s : pystr) : pystr := rstrip (lstrip s).

(** A string is truthy when it is not empty. *)
Definition truthy (s : pystr) : bool :=
  match s with [] => false | _ :: _ => true end.

(** [_load_allowed_origins], given the result of
    [os.getenv("ALLOWED_ORIGINS")]. *)
Definition load_allowed_origins (raw : option pystr) : list pystr :=
  match raw with
  | None => DEFAULT_ALLOWED_ORIGINS
  | Some [] => DEFAULT_ALLOWED_ORIGINS
  | Some ((_ :: _) as s) =>
      map strip (filter (fun origin => truthy (strip origin)) (split_comma s))
  end.

End Origins.

(** The whitespace of [str.strip()] on code points: the ASCII controls
    9-13 and 28-31, the space, and the Unicode space separators. *)
Definition py_is_space (c : N) : bool :=
  ((9 <=? c) && (c <=? 13) || (28 <=? c) && (c <=? 32) ||
   (c =? 133) || (c =? 160) || (c =? 5760) ||
   (8192 <=? c) && (c <=? 8202) ||
   (c =? 8232) || (c =? 8233) || (c =? 8239) || (c =? 8287) ||
   (c =? 12288))%N.

(** ** [process_video] *)

(** The two attributes of the upload that the handler reads. *)
Record UploadFile : Type := mkUploadFile
  { filename : option string;
    content_type : option string }.

(** The JSON body of a successful response. *)
Record Payload : Type := mkPayload
  { message : string;
    processed_video_url : string;
    payload_summary : RunSummary }.

Inductive Response : Type :=
| HTTPException (status_code : Z) (detail : string)
| JSONResponse (content : Payload).

(** How the [try] block ends: with the summary, with a [ValueError], or
    with any other exception. *)
Inductive Outcome : Type :=
| Returned (summary : RunSummary)
| RaisedValueError (msg : string)
| RaisedOther.

Inductive Dir : Type := UPLOAD_DIR | PROCESSED_DIR.

(** A file of one of the two directories, by its name. *)
Definition FilePath : Type := (Dir * string)%type.

Definition dir_eqb (a b : Dir) : bool :=
  match a, b with
  | UPLOAD_DIR, UPLOAD_DIR | PROCESSED_DIR, PROCESSED_DIR => true
  | _, _ => false
  end.

Definition path_eqb (p q : FilePath) : bool :=
  dir_eqb (fst p) (fst q) && String.eqb (snd p) (snd q).

(** The files that exist. *)
Definition FileSystem : Type := list FilePath.

Definition exists_file (fs : FileSystem) (p : FilePath) : bool :=
  existsb (path_eqb p) fs.

(** [if p.exists(): p.unlink(missing_ok=True)]. *)
Definition unlink_if_exists (fs : FileSystem) (p : FilePath) : FileSystem :=
  if exists_file fs p
  then filter (fun q => negb (path_eqb p q)) fs
  else fs.

(** A [str] or [None] used as a condition. *)
Definition present (s : option string) : bool :=
  match s with
  | None => false
  | Some s' => negb (String.eqb s' "")
  end.

Section Handler.

Variable norm : point -> float.
Variable mean : list float -> float.

(** [Path(name).suffix]. *)
Variable suffix_of : string -> string.

(** [UPLOAD_DIR / f"{video_id}{suffix}"]. *)
Definition input_path_of (video_id : string) (name : string) : FilePath :=
  let suffix :=
    if String.eqb (suffix_of name) "" then ".mp4"%string
    else suffix_of name in
  (UPLOAD_DIR, String.append video_id suffix).

(** [PROCESSED_DIR / f"{video_id}.mp4"]. *)
Definition output_path_of (video_id : string) : FilePath :=
  (PROCESSED_DIR, String.append video_id ".mp4").

(** The [except]/[finally] clauses and the final [return], given how the
    [try] block ended and the files existing at that point. *)
Definition finish_request (video_id : string) (input_path : FilePath)
    (o : Outcome) (fs : FileSystem) : Response * FileSystem :=
  let output_path := output_path_of video_id in
  match o with
  | RaisedValueError msg =>
      let fs1 := unlink_if_exists fs output_path in
      (HTTPException 400 msg, unlink_if_exists fs1 input_path)
  | RaisedOther =>
      let fs1 := unlink_if_exists fs output_path in
      (HTTPException 500 "An unexpected error occurred.",
       unlink_if_exists fs1 input_path)
  | Returned summary =>
      (JSONResponse
         {| message := "Video processed successfully.";
            processed_video_url :=
              String.append "/processed/" (snd output_path);
            payload_summary := summary |},
       unlink_if_exists fs input_path)
  end.

(** How [_detect_and_annotate] ends, as seen by the handler. *)
Definition run_core (src : VideoSource) : Outcome :=
  match detect_and_annotate norm mean src with
  | inl (ValueError msg) => RaisedValueError msg
  | inr summary => Returned summary
  end.

(** [process_video].  [video_id] is [uuid4().hex]; [src] is what the
    capture and the encoder make of the uploaded bytes; [output_written]
    tells whether the encoder has created the output file by the time
    the core ends. *)
Definition process_video (file : UploadFile) (video_id : string)
    (src : VideoSource) (output_written : bool) (fs : FileSystem)
    : Response * FileSystem :=
  match filename file with
  | None => (HTTPException 400 "A file must be provided.", fs)
  | Some name =>
      if String.eqb name ""
      then (HTTPException 400 "A file must be provided.", fs)
      else
        match content_type file with
        | None => (HTTPException 415 "Only video uploads are supported.", fs)
        | Some ct =>
            if negb (String.prefix "video/" ct)
            then (HTTPException 415 "Only video uploads are supported.", fs)
            else
              let input_path := input_path_of video_id name in
              let fs1 := input_path :: fs in
              let fs2 :=
                if output_written
                then output_path_of video_id :: fs1 else fs1 in
              finish_request video_id input_path (run_core src) fs2
        end
  end.

End Handler.

(** ** Sample inputs for these parts *)

Definition sample_upload : UploadFile :=
  {| filename := Some "clip.avi"%string;
     content_type := Some "video/x-msvideo"%string |}.

(** A stand-in for [Path(name).suffix] on the sample names. *)
Definition sample_suffix (name : string) : string :=
  if String.eqb name "clip.avi" then ".avi"%string else ""%string.

Definition other_file : FilePath := (PROCESSED_DIR, "earlier.mp4"%string).

(** Two candidates at the same distance (50) from [origin]. *)
Definition tie_pool : list candidate :=
  [(box_a, (30%float, 40%float)); (box_b, (40%float, 30%float))].

(** A setting with blanks around the origins and an empty piece. *)
Definition sample_setting : pystr :=
  pystr_of " http://a.test , ,http://b.test".


(** * Properties *)

(** ** Order facts on binary64 values *)

Module FloatOrder.

Ltac sf_cases :=
  repeat match goal with
    | s : bool |- _ => destruct s
    | |- context [Z.compare ?a ?b] => destruct (Z.compare_spec a b)
    | H : context [Z.compare ?a ?b] |- _ => destruct (Z.compare_spec a b)
    | |- context [Pos.compare_cont Eq ?a ?b] =>
        change (Pos.compare_cont Eq a b) with (Pos.compare a b);
        destruct (Pos.compare_spec a b)
    | H : context [Pos.compare_cont Eq ?a ?b] |- _ =>
        change (Pos.compare_cont Eq a b) with (Pos.compare a b) in H;
        destruct (Pos.compare_spec a b)
    end;
  simpl in *; subst; try discriminate; try reflexivity; try lia.

Ltac sf_order :=
  unfold SFleb, SFltb, SFcompare;
  repeat match goal with
    | x : spec_float |- _ => destruct x as [?|?| |? ? ?]
    end;
  intros; repeat split; sf_cases.

Lemma SFltb_trans x y z :
  SFltb x y = true -> SFltb y z = true -> SFltb x z = true.
Proof. sf_order. Qed.

Lemma SFleb_trans x y z :
  SFleb x y = true -> SFleb y z = true -> SFleb x z = true.
Proof. sf_order. Qed.

Lemma SFleb_ltb_trans x y z :
  SFleb x y = true -> SFltb y z = true -> SFltb x z = true.
Proof. sf_order. Qed.

Lemma SFltb_irrefl x : SFltb x x = false.
Proof. sf_order. Qed.

Lemma SFnot_ltb x y :
  SFleb x x = true -> SFleb y y = true -> SFltb x y = false ->
  SFleb y x = true.
Proof. sf_order. Qed.

Lemma SFleb_ordered x y :
  SFleb x y = true -> SFleb x x = true /\ SFleb y y = true.
Proof. sf_order. Qed.

Lemma SFltb_ordered x y :
  SFltb x y = true -> SFleb x x = true /\ SFleb y y = true.
Proof. sf_order. Qed.

(** The same facts on primitive floats. *)

Lemma ltb_trans x y z :
  PrimFloat.ltb x y = true -> PrimFloat.ltb y z = true ->
  PrimFloat.ltb x z = true.
Proof. rewrite !FloatAxioms.ltb_spec. apply SFltb_trans. Qed.

Lemma leb_trans x y z :
  PrimFloat.leb x y = true -> PrimFloat.leb y z = true ->
  PrimFloat.leb x z = true.
Proof. rewrite !FloatAxioms.leb_spec. apply SFleb_trans. Qed.

Lemma leb_ltb_trans x y z :
  PrimFloat.leb x y = true -> PrimFloat.ltb y z = true ->
  PrimFloat.ltb x z = true.
Proof. rewrite !FloatAxioms.leb_spec, !FloatAxioms.ltb_spec. apply SFleb_ltb_trans. Qed.

Lemma ltb_irrefl x : PrimFloat.ltb x x = false.
Proof. rewrite FloatAxioms.ltb_spec. apply SFltb_irrefl. Qed.

Lemma not_ltb x y :
  PrimFloat.leb x x = true -> PrimFloat.leb y y = true ->
  PrimFloat.ltb x y = false -> PrimFloat.leb y x = true.
Proof. rewrite !FloatAxioms.leb_spec, !FloatAxioms.ltb_spec. apply SFnot_ltb. Qed.

Lemma leb_ordered x y :
  PrimFloat.leb x y = true ->
  PrimFloat.leb x x = true /\ PrimFloat.leb y y = true.
Proof. rewrite !FloatAxioms.leb_spec. apply SFleb_ordered. Qed.

Lemma ltb_ordered x y :
  PrimFloat.ltb x y = true ->
  PrimFloat.leb x x = true /\ PrimFloat.leb y y = true.
Proof. rewrite !FloatAxioms.leb_spec, !FloatAxioms.ltb_spec. apply SFltb_ordered. Qed.

End FloatOrder.

(** ** [list.pop] *)

Lemma pop_nth_error {A : Type} (l : list A) (idx : nat) (x : A) :
  nth_error l idx = Some x -> Permutation (x :: pop idx l) l.
Proof.
  revert idx; induction l as [|a l IH]; intros [|idx] H; simpl in *;
    try discriminate.
  - injection H as ->. unfold pop. simpl. reflexivity.
  - unfold pop in *. simpl.
    rewrite perm_swap. constructor. apply IH, H.
Qed.

Lemma pop_length {A : Type} (l : list A) (idx : nat) (x : A) :
  nth_error l idx = Some x -> S (length (pop idx l)) = length l.
Proof.
  intros H. apply pop_nth_error, Permutation_length in H. exact H.
Qed.

(** ** The inner search *)

Section Search.

Variable norm : point -> float.

(** The search either keeps what it started with, or returns an entry
    of the pool together with its index and its distance. *)
Lemma find_best_sound pos pool : forall i0 b d0 b' d',
  find_best norm pos pool i0 b d0 = (b', d') ->
  (b' = b /\ d' = d0) \/
  (exists idx det center,
      b' = Some (idx, det, center) /\ (i0 <= idx)%nat /\
      nth_error pool (idx - i0) = Some (det, center) /\
      d' = norm (vsub center pos)).
Proof.
  induction pool as [|[det center] rest IH]; intros i0 b d0 b' d' H;
    simpl in H.
  - injection H as <- <-. now left.
  - destruct (PrimFloat.ltb (norm (vsub center pos)) d0) eqn:E.
    + apply IH in H. destruct H as [[-> ->] | (idx & det' & c' & -> & Hle & Hn & ->)].
      * right. exists i0, det, center. rewrite Nat.sub_diag. simpl. auto.
      * right. exists idx, det', c'. split; [reflexivity|split; [lia|split; [|reflexivity]]].
        replace (idx - i0)%nat with (S (idx - S i0)) by lia. exact Hn.
    + apply IH in H. destruct H as [[-> ->] | (idx & det' & c' & -> & Hle & Hn & ->)].
      * now left.
      * right. exists idx, det', c'. split; [reflexivity|split; [lia|split; [|reflexivity]]].
        replace (idx - i0)%nat with (S (idx - S i0)) by lia. exact Hn.
Qed.

(** The returned distance never exceeds the initial one, and no entry
    of the pool is strictly closer. *)
Lemma find_best_lower_bound pos pool : forall i0 b d0 b' d',
  find_best norm pos pool i0 b d0 = (b', d') ->
  (d' = d0 \/ PrimFloat.ltb d' d0 = true) /\
  (forall c, In c pool -> PrimFloat.ltb (norm (vsub (snd c) pos)) d' = false).
Proof.
  induction pool as [|[det center] rest IH]; intros i0 b d0 b' d' H;
    simpl in H.
  - injection H as <- <-. split; [now left | intros c []].
  - destruct (PrimFloat.ltb (norm (vsub center pos)) d0) eqn:E;
      apply IH in H; destruct H as [Hmono Hlow]; split.
    + right. destruct Hmono as [-> | Hlt]; [exact E|].
      eapply FloatOrder.ltb_trans; eassumption.
    + intros c [<- | Hin]; [|auto]. simpl.
      destruct Hmono as [-> | Hlt]; [apply FloatOrder.ltb_irrefl|].
      destruct (PrimFloat.ltb (norm (vsub center pos)) d') eqn:E'; [|reflexivity].
      pose proof (FloatOrder.ltb_trans _ _ _ E' Hlt) as Hc.
      now rewrite FloatOrder.ltb_irrefl in Hc.
    + exact Hmono.
    + intros c [<- | Hin]; [|auto]. simpl.
      destruct Hmono as [-> | Hlt]; [exact E|].
      destruct (PrimFloat.ltb (norm (vsub center pos)) d') eqn:E'; [|reflexivity].
      pose proof (FloatOrder.ltb_trans _ _ _ E' Hlt) as Hc. congruence.
Qed.

(** What a successful [select_match] returns. *)
Lemma select_match_some track pool idx det center :
  select_match norm track pool = Some (idx, det, center) ->
  nth_error pool idx = Some (det, center) /\
  PrimFloat.leb (norm (vsub center (position track)))
                TRACK_DISTANCE_THRESHOLD = true /\
  (forall c, In c pool ->
     PrimFloat.ltb (norm (vsub (snd c) (position track)))
                   (norm (vsub center (position track))) = false).
Proof.
  unfold select_match.
  destruct (find_best norm (position track) pool 0 None infinity)
    as [b d] eqn:E.
  destruct b as [m|]; [|discriminate].
  destruct (PrimFloat.leb d TRACK_DISTANCE_THRESHOLD) eqn:Hd; [|discriminate].
  intros H; injection H as ->.
  pose proof (find_best_lower_bound _ _ _ _ _ _ _ E) as [_ Hlow].
  apply find_best_sound in E.
  destruct E as [[? _] | (i & det' & c' & Hm & _ & Hn & ->)]; [discriminate|].
  injection Hm as <- <- <-. rewrite Nat.sub_0_r in Hn. auto.
Qed.

(** A candidate within the threshold forces a match. *)
Lemma select_match_within track pool c :
  In c pool ->
  PrimFloat.leb (norm (vsub (snd c) (position track))) TRACK_DISTANCE_THRESHOLD = true ->
  exists idx det center,
    select_match norm track pool = Some (idx, det, center).
Proof.
  intros Hin Hc. unfold select_match.
  destruct (find_best norm (position track) pool 0 None infinity)
    as [b d] eqn:E.
  pose proof (find_best_lower_bound _ _ _ _ _ _ _ E) as [Hmono Hlow].
  specialize (Hlow c Hin).
  assert (Hinf : PrimFloat.ltb (norm (vsub (snd c) (position track))) infinity = true).
  { eapply FloatOrder.leb_ltb_trans; [exact Hc|reflexivity]. }
  assert (Hd : PrimFloat.leb d TRACK_DISTANCE_THRESHOLD = true).
  { eapply FloatOrder.leb_trans; [|exact Hc].
    apply FloatOrder.not_ltb; [| |exact Hlow].
    - apply (FloatOrder.leb_ordered _ _ Hc).
    - destruct Hmono as [-> | Hlt]; [reflexivity|].
      apply (FloatOrder.ltb_ordered _ _ Hlt). }
  apply find_best_sound in E.
  destruct E as [[-> ->] | (i & det' & c' & -> & _)]; [congruence|].
  rewrite Hd. eauto.
Qed.

Lemma select_match_none track pool :
  select_match norm track pool = None ->
  forall c, In c pool ->
    PrimFloat.leb (norm (vsub (snd c) (position track))) TRACK_DISTANCE_THRESHOLD = false.
Proof.
  intros Hn c Hin.
  destruct (PrimFloat.leb (norm (vsub (snd c) (position track))) TRACK_DISTANCE_THRESHOLD)
    eqn:E; [|reflexivity].
  destruct (select_match_within track pool c Hin E) as (? & ? & ? & H).
  congruence.
Qed.

End Search.

(** ** The association loop *)

Section Association.

Variable norm : point -> float.

(** The loop appends, to what was already collected, the outcome of
    every track under the greedy assignment. *)
Lemma associate_tracks_outcomes tracks : forall updated pool,
  fst (associate_tracks norm tracks updated pool) =
    updated ++ outcomes norm tracks (assignment norm tracks pool).
Proof.
  induction tracks as [|t rest IH]; intros updated pool; simpl.
  - now rewrite app_nil_r.
  - unfold associate_track.
    destruct (select_match norm t pool) as [[[idx det] center]|]; simpl.
    + rewrite IH, <- app_assoc. reflexivity.
    + destruct (misses t + 1 <=? TRACK_MAX_MISSES); rewrite IH.
      * now rewrite <- app_assoc.
      * reflexivity.
Qed.

Lemma associate_tracks_app pre : forall post updated pool,
  associate_tracks norm (pre ++ post) updated pool =
    associate_tracks norm post
      (fst (associate_tracks norm pre updated pool))
      (snd (associate_tracks norm pre updated pool)).
Proof.
  induction pre as [|t rest IH]; intros post updated pool; simpl.
  - reflexivity.
  - destruct (associate_track norm t updated pool) as [u p]. apply IH.
Qed.

(** Claimed candidates and the candidates left over make up the pool. *)
Lemma assignment_partition tracks : forall updated pool,
  Permutation
    (claimed (assignment norm tracks pool) ++
     snd (associate_tracks norm tracks updated pool))
    pool.
Proof.
  induction tracks as [|t rest IH]; intros updated pool; simpl.
  - reflexivity.
  - unfold associate_track.
    destruct (select_match norm t pool) as [[[idx det] center]|] eqn:E;
      simpl.
    + apply select_match_some in E. destruct E as [Hn _].
      eapply Permutation_trans; [|apply pop_nth_error, Hn].
      constructor. apply IH.
    + destruct (misses t + 1 <=? TRACK_MAX_MISSES); apply IH.
Qed.

Lemma claimed_in_pool tracks pool c :
  In c (claimed (assignment norm tracks pool)) -> In c pool.
Proof.
  intros H.
  apply (Permutation_in c (assignment_partition tracks [] pool)).
  apply in_or_app. now left.
Qed.

Lemma claimed_NoDup tracks pool :
  NoDup pool -> NoDup (claimed (assignment norm tracks pool)).
Proof.
  intros H.
  apply (Permutation_NoDup
           (Permutation_sym (assignment_partition tracks [] pool))) in H.
  now apply NoDup_app_remove_r in H.
Qed.

(** C4 - a track that is not matched while the association step runs
    has its misses counter incremented by exactly 1 and nothing else
    changed; it is kept when the incremented counter is at most
    TRACK_MAX_MISSES (10) and dropped otherwise, and the candidate pool
    is left as it was.  Incremented to 10 it survives, to 11 it is
    removed. *)
Theorem unmatched_track_ages_or_is_evicted :
  forall (pre post : list Track) (track : Track)
         (updated u1 : list Track) (pool p1 : list candidate),
    associate_tracks norm pre updated pool = (u1, p1) ->
    select_match norm track p1 = None ->
    let aged :=
      {| position := position track;
         velocity_samples := velocity_samples track;
         misses := misses track + 1;
         last_detection := last_detection track |} in
    let u2 := if misses track + 1 <=? 10 then u1 ++ [aged] else u1 in
    associate_track norm track u1 p1 = (u2, p1) /\
    associate_tracks norm (pre ++ track :: post) updated pool =
      associate_tracks norm post u2 p1 /\
    (misses track + 1 <= 10 <-> u2 = u1 ++ [aged]) /\
    (misses track + 1 > 10 <-> u2 = u1) /\
    (misses track + 1 = 10 -> u2 = u1 ++ [aged]) /\
    (misses track + 1 = 11 -> u2 = u1) /\
    (forall c, In c p1 ->
       PrimFloat.leb (norm (vsub (snd c) (position track)))
                     TRACK_DISTANCE_THRESHOLD = false).
Proof.
  intros pre post track updated u1 pool p1 Hpre Hsel aged u2.
  pose proof (select_match_none norm track p1 Hsel) as Hfar.
  assert (Hstep : associate_track norm track u1 p1 = (u2, p1)).
  { unfold associate_track. rewrite Hsel. simpl.
    unfold u2, TRACK_MAX_MISSES.
    destruct (misses track + 1 <=? 10); reflexivity. }
  assert (Hne : u1 ++ [aged] <> u1).
  { intros H. apply (f_equal (@length Track)) in H.
    rewrite length_app in H. simpl in H. lia. }
  split; [exact Hstep|].
  split.
  { rewrite associate_tracks_app, Hpre. simpl. now rewrite Hstep. }
  unfold u2.
  destruct (Z.leb_spec (misses track + 1) 10) as [Hle | Hgt].
  - repeat split; intros; try reflexivity; try lia; try congruence; auto.
  - repeat split; intros; try reflexivity; try lia; try congruence; auto.
Qed.

(** C5 - when some candidate of the pool lies within
    TRACK_DISTANCE_THRESHOLD (80.0) of the track's position, the track
    is matched to a candidate of minimal distance: its position becomes
    that candidate's centroid, the distance from the old position to
    the centroid is appended to velocity_samples, misses becomes 0,
    last_detection becomes the candidate's detection, and the candidate
    is popped from the pool.  After the loop over the tracks, every
    candidate still in the pool yields a new track with that centroid,
    no samples, misses 0 and that detection. *)
Theorem match_commits_and_leftovers_spawn :
  (forall (track : Track) (updated : list Track) (pool : list candidate)
          (c : candidate),
      In c pool ->
      PrimFloat.leb (norm (vsub (snd c) (position track)))
                    TRACK_DISTANCE_THRESHOLD = true ->
      exists idx det center,
        nth_error pool idx = Some (det, center) /\
        PrimFloat.leb (norm (vsub center (position track)))
                      TRACK_DISTANCE_THRESHOLD = true /\
        (forall c', In c' pool ->
           PrimFloat.ltb (norm (vsub (snd c') (position track)))
                         (norm (vsub center (position track))) = false) /\
        associate_track norm track updated pool =
          (updated ++
             [ {| position := center;
                  velocity_samples :=
                    velocity_samples track ++
                    [norm (vsub center (position track))];
                  misses := 0;
                  last_detection := Some det |} ],
           pop idx pool) /\
        Permutation ((det, center) :: pop idx pool) pool /\
        S (length (pop idx pool)) = length pool)
  /\
  (forall (tracks : list Track) (frame_detections : list Detection)
          (centers : list point),
      centers <> [] ->
      let pool := combine frame_detections centers in
      update_tracks norm tracks frame_detections centers =
        fst (associate_tracks norm tracks [] pool) ++
        map (fun c : candidate =>
               {| position := snd c;
                  velocity_samples := [];
                  misses := 0;
                  last_detection := Some (fst c) |})
            (snd (associate_tracks norm tracks [] pool))).
Proof.
  split.
  - intros track updated pool c Hin Hc.
    destruct (select_match_within norm track pool c Hin Hc)
      as (idx & det & center & Hsel).
    destruct (select_match_some norm _ _ _ _ _ Hsel) as (Hn & Hle & Hmin).
    exists idx, det, center.
    split; [exact Hn|]. split; [exact Hle|]. split; [exact Hmin|].
    split; [|split; [apply pop_nth_error, Hn | apply (pop_length _ _ _ Hn)]].
    unfold associate_track. rewrite Hsel. reflexivity.
  - intros tracks frame_detections centers Hne pool.
    destruct centers as [|c0 cs]; [contradiction|].
    unfold update_tracks, associate. fold pool.
    destruct (associate_tracks norm tracks [] pool) as [u p]. reflexivity.
Qed.

(** C6 - within one frame the matching is one-to-one: the candidates
    claimed by the tracks, together with the candidates left in the
    pool, are a rearrangement of the frame's candidates, so none is
    claimed twice.  The claim is greedy in iteration order: once the
    first track selects a candidate, that candidate is popped and the
    remaining tracks are associated against the reduced pool only,
    whatever their own distance to it. *)
Theorem matching_is_one_to_one_and_greedy :
  (forall (tracks updated : list Track) (pool : list candidate),
      let a := assignment norm tracks pool in
      fst (associate_tracks norm tracks updated pool) =
        updated ++ outcomes norm tracks a /\
      Permutation
        (claimed a ++ snd (associate_tracks norm tracks updated pool)) pool /\
      (length (claimed a) +
       length (snd (associate_tracks norm tracks updated pool)) =
       length pool)%nat /\
      (NoDup pool -> NoDup (claimed a)))
  /\
  (forall (first : Track) (rest updated : list Track)
          (pool : list candidate) (idx : nat) (det : Detection)
          (center : point),
      select_match norm first pool = Some (idx, det, center) ->
      assignment norm (first :: rest) pool =
        Some (det, center) :: assignment norm rest (pop idx pool) /\
      associate_tracks norm (first :: rest) updated pool =
        associate_tracks norm rest
          (updated ++ [commit norm first det center]) (pop idx pool) /\
      Permutation ((det, center) :: pop idx pool) pool /\
      (forall c, In c (claimed (assignment norm rest (pop idx pool))) ->
                 In c (pop idx pool)) /\
      (NoDup pool ->
       ~ In (det, center) (claimed (assignment norm rest (pop idx pool))))).
Proof.
  split.
  - intros tracks updated pool a.
    pose proof (assignment_partition tracks updated pool) as Hperm.
    split; [apply associate_tracks_outcomes|].
    split; [exact Hperm|].
    split; [|apply claimed_NoDup].
    apply Permutation_length in Hperm. now rewrite length_app in Hperm.
  - intros first rest updated pool idx det center Hsel.
    destruct (select_match_some norm _ _ _ _ _ Hsel) as (Hn & _ & _).
    pose proof (pop_nth_error _ _ _ Hn) as Hperm.
    split; [simpl; now rewrite Hsel|].
    split; [simpl; unfold associate_track; now rewrite Hsel|].
    split; [exact Hperm|].
    split; [intros c; apply claimed_in_pool|].
    intros Hnd Hin.
    apply (Permutation_NoDup (Permutation_sym Hperm)) in Hnd.
    inversion Hnd as [|x l Hnot _]; subst.
    apply Hnot. eapply claimed_in_pool; eassumption.
Qed.

End Association.

(** ** Invariants of the track store *)

Section StoreInvariant.

Variable norm : point -> float.
Variable mean : list float -> float.

(** A property of tracks that matching establishes, that creation
    establishes, and that a surviving miss preserves. *)
Variable P : Track -> Prop.
Hypothesis P_commit : forall t det center, P (commit norm t det center).
Hypothesis P_new : forall c, P (new_track c).
Hypothesis P_miss :
  forall t, P t -> misses t + 1 <= TRACK_MAX_MISSES -> P (miss t).

Lemma associate_tracks_inv tracks : forall updated pool,
  Forall P tracks -> Forall P updated ->
  Forall P (fst (associate_tracks norm tracks updated pool)).
Proof.
  induction tracks as [|t rest IH]; intros updated pool Ht Hu; simpl.
  - exact Hu.
  - inversion Ht as [|? ? Pt Prest]; subst.
    unfold associate_track.
    destruct (select_match norm t pool) as [[[idx det] center]|]; simpl.
    + apply IH; [exact Prest|].
      apply Forall_app. split; [exact Hu|]. constructor; auto.
    + destruct (Z.leb_spec (misses t + 1) TRACK_MAX_MISSES) as [Hle|Hgt];
        apply IH; auto.
      apply Forall_app. split; [exact Hu|]. constructor; auto.
Qed.

Lemma update_tracks_inv tracks frame_detections centers :
  Forall P tracks ->
  Forall P (update_tracks norm tracks frame_detections centers).
Proof.
  intros Ht. destruct centers as [|c cs]; [exact Ht|].
  unfold update_tracks, associate.
  pose proof (associate_tracks_inv tracks []
                (combine frame_detections (c :: cs)) Ht (Forall_nil P)) as H.
  destruct (associate_tracks norm tracks []
              (combine frame_detections (c :: cs))) as [u p].
  simpl in H. apply Forall_app. split; [exact H|].
  apply Forall_forall. intros t Hin.
  apply in_map_iff in Hin. destruct Hin as (x & <- & _). apply P_new.
Qed.

Lemma fold_process_frame_inv frames : forall st,
  Forall P (tracks st) ->
  Forall P (tracks (fold_left (process_frame norm mean) frames st)).
Proof.
  induction frames as [|f rest IH]; intros st H; simpl; [exact H|].
  apply IH. unfold process_frame; simpl.
  apply update_tracks_inv.
  unfold record_detections. destruct (map detection_of f); exact H.
Qed.

Lemma run_frames_inv frames :
  Forall P (tracks (run_frames norm mean frames)).
Proof. apply fold_process_frame_inv. constructor. Qed.

End StoreInvariant.

(** ** The frame loop *)

Lemma Forall_firstn {A : Type} (Q : A -> Prop) (l : list A) :
  forall n, Forall Q l -> Forall Q (firstn n l).
Proof.
  induction l as [|a l IH]; intros [|n] H; simpl; try constructor.
  - now inversion H.
  - apply IH. now inversion H.
Qed.

Lemma detection_reports_sound frames : forall start,
  Forall (fun r =>
            start <= frame_index r /\
            exists frame,
              nth_error frames (Z.to_nat (frame_index r - start)) = Some frame /\
              frame <> [] /\
              count r = Z.of_nat (length frame) /\
              boxes r = map detection_of frame)
         (detection_reports start frames).
Proof.
  induction frames as [|f rest IH]; intros start; simpl; [constructor|].
  assert (Hrest :
    Forall (fun r =>
              start <= frame_index r /\
              exists frame,
                nth_error (f :: rest) (Z.to_nat (frame_index r - start))
                  = Some frame /\
                frame <> [] /\
                count r = Z.of_nat (length frame) /\
                boxes r = map detection_of frame)
           (detection_reports (start + 1) rest)).
  { eapply Forall_impl; [|apply (IH (start + 1))].
    intros r (Hle & frame & Hn & Hrest). split; [lia|].
    exists frame. split; [|exact Hrest].
    replace (Z.to_nat (frame_index r - start))
      with (S (Z.to_nat (frame_index r - (start + 1)))) by lia.
    exact Hn. }
  destruct f as [|b f']; [exact Hrest|].
  constructor; [|exact Hrest]. simpl. split; [lia|].
  exists (b :: f'). rewrite Z.sub_diag. simpl.
  repeat split; try reflexivity. discriminate.
Qed.

Section FrameLoop.

Variable norm : point -> float.
Variable mean : list float -> float.

Lemma process_frame_total_frames st frame :
  total_frames (process_frame norm mean st frame) = total_frames st + 1.
Proof.
  unfold process_frame, record_detections; simpl.
  destruct (map detection_of frame); reflexivity.
Qed.

Lemma process_frame_total_detections st frame :
  total_detections (process_frame norm mean st frame) =
  total_detections st + Z.of_nat (length frame).
Proof.
  unfold process_frame, record_detections; simpl.
  destruct frame as [|b f]; simpl; [lia|].
  rewrite length_map. reflexivity.
Qed.

Lemma process_frame_reported st frame :
  reported_frames (process_frame norm mean st frame) =
  match frame with
  | [] => reported_frames st
  | _ :: _ =>
      if Z.of_nat (length (reported_frames st)) <? MAX_REPORTED_FRAMES
      then reported_frames st ++
           [ {| frame_index := total_frames st;
                count := Z.of_nat (length frame);
                boxes := map detection_of frame |} ]
      else reported_frames st
  end.
Proof.
  unfold process_frame, record_detections; simpl.
  destruct frame as [|b f]; simpl; [reflexivity|].
  rewrite length_map. reflexivity.
Qed.

Lemma process_frame_tracks st frame :
  tracks (process_frame norm mean st frame) =
  update_tracks norm (tracks st)
    (map detection_of frame) (map center_of frame).
Proof.
  unfold process_frame, record_detections; simpl.
  destruct (map detection_of frame); reflexivity.
Qed.

Lemma fold_total_frames frames : forall st,
  total_frames (fold_left (process_frame norm mean) frames st) =
  total_frames st + Z.of_nat (length frames).
Proof.
  induction frames as [|f rest IH]; intros st; simpl length.
  - simpl. lia.
  - cbn [fold_left]. rewrite IH, process_frame_total_frames. lia.
Qed.

Lemma fold_total_detections frames : forall st,
  total_detections (fold_left (process_frame norm mean) frames st) =
  total_detections st + count_boxes frames.
Proof.
  induction frames as [|f rest IH]; intros st.
  - simpl. lia.
  - cbn [fold_left count_boxes].
    rewrite IH, process_frame_total_detections. lia.
Qed.

Lemma fold_reported frames : forall st,
  reported_frames (fold_left (process_frame norm mean) frames st) =
  reported_frames st ++
  firstn (Z.to_nat MAX_REPORTED_FRAMES - length (reported_frames st))
         (detection_reports (total_frames st) frames).
Proof.
  induction frames as [|f rest IH]; intros st.
  - simpl. now rewrite firstn_nil, app_nil_r.
  - cbn [fold_left]. rewrite IH.
    rewrite process_frame_total_frames, process_frame_reported.
    destruct f as [|b f']; [reflexivity|].
    cbn [detection_reports].
    destruct (Z.ltb_spec (Z.of_nat (length (reported_frames st)))
                         MAX_REPORTED_FRAMES) as [Hlt|Hge].
    + rewrite length_app. simpl length.
      unfold MAX_REPORTED_FRAMES in *.
      replace (Z.to_nat 50 - length (reported_frames st))%nat
        with (S (Z.to_nat 50 - (length (reported_frames st) + 1)))%nat
        by lia.
      cbn [firstn]. rewrite <- app_assoc. reflexivity.
    + unfold MAX_REPORTED_FRAMES in *.
      replace (Z.to_nat 50 - length (reported_frames st))%nat
        with 0%nat by lia.
      reflexivity.
Qed.

End FrameLoop.

(** ** Statements about a whole frame and a whole run *)

Section Run.

Variable norm : point -> float.
Variable mean : list float -> float.

(** C1, as amended - a frame with zero detections does not enter the
    association step ([if centers:] is false): the track store after
    the frame is exactly the store before it; no misses counter changes
    and no track is removed. *)
Theorem zero_detection_frame_leaves_store :
  forall (st : LoopState) (ts : list Track) (ds : list Detection),
    tracks (process_frame norm mean st []) = tracks st /\
    update_tracks norm ts ds [] = ts /\
    map misses (tracks (process_frame norm mean st [])) =
      map misses (tracks st) /\
    length (tracks (process_frame norm mean st [])) = length (tracks st).
Proof.
  intros st ts ds.
  assert (H : tracks (process_frame norm mean st []) = tracks st)
    by reflexivity.
  rewrite H. repeat split; reflexivity.
Qed.

(** C2, as amended - a track whose velocity_samples list is empty gets
    the average speed 0.0, which is at most SLOW_SPEED_THRESHOLD, so its
    label is [slow]; this is what the annotator draws for it. *)
Theorem empty_samples_label_is_slow :
  forall (track : Track),
    velocity_samples track = [] ->
    classify mean track = slow /\
    (forall det, last_detection track = Some det ->
       annotate_track mean track = Some (det, slow)).
Proof.
  intros track H.
  assert (Hc : classify mean track = slow).
  { unfold classify. rewrite H. reflexivity. }
  split; [exact Hc|].
  intros det Hd. unfold annotate_track. now rewrite Hd, Hc.
Qed.

(** C3 - for a track with non-empty velocity_samples, with avg the mean
    of the samples: the label is [fast] when avg >= 150.0, [slow] when
    avg <= 60.0, and [normal] when neither holds; in particular avg
    exactly 150.0 gives [fast] and avg exactly 60.0 gives [slow]. *)
Theorem nonempty_samples_label :
  forall (track : Track),
    velocity_samples track <> [] ->
    let avg := mean (velocity_samples track) in
    (PrimFloat.leb FAST_SPEED_THRESHOLD avg = true ->
       classify mean track = fast) /\
    (PrimFloat.leb avg SLOW_SPEED_THRESHOLD = true ->
       classify mean track = slow) /\
    (PrimFloat.leb FAST_SPEED_THRESHOLD avg = false ->
     PrimFloat.leb avg SLOW_SPEED_THRESHOLD = false ->
       classify mean track = normal) /\
    (avg = 150.0%float -> classify mean track = fast) /\
    (avg = 60.0%float -> classify mean track = slow).
Proof.
  intros track Hne avg.
  assert (Hc : classify mean track =
               if PrimFloat.leb FAST_SPEED_THRESHOLD avg then fast
               else if PrimFloat.leb avg SLOW_SPEED_THRESHOLD then slow
               else normal).
  { unfold classify, avg.
    destruct (velocity_samples track); [contradiction|reflexivity]. }
  assert (Hslow : PrimFloat.leb avg SLOW_SPEED_THRESHOLD = true ->
                  PrimFloat.leb FAST_SPEED_THRESHOLD avg = false).
  { intros Hs.
    destruct (PrimFloat.leb FAST_SPEED_THRESHOLD avg) eqn:Hf; [|reflexivity].
    pose proof (FloatOrder.leb_trans _ _ _ Hf Hs) as Hcontra.
    vm_compute in Hcontra. discriminate. }
  rewrite Hc. clear Hc.
  split; [intros ->; reflexivity|].
  split; [intros Hs; rewrite (Hslow Hs), Hs; reflexivity|].
  split; [intros -> ->; reflexivity|].
  split; intros ->; reflexivity.
Qed.

(** C7 - in the summary of a run, reported_frames is the list of
    reports of the frames with at least one detection, cut after the
    first 50: it has at most 50 entries, each carrying the 0-based
    index of its frame and that frame's detection count (at least 1),
    while total_detections is the number of detections over all frames
    of the run, reported or not. *)
Theorem reported_frames_capped_total_counts_all :
  forall (src : VideoSource) (summary : RunSummary),
    detect_and_annotate norm mean src = inr summary ->
    sum_reported_frames summary =
      firstn 50 (detection_reports 0 (src_frames src)) /\
    (length (sum_reported_frames summary) <= 50)%nat /\
    Forall (fun r =>
              0 <= frame_index r /\
              1 <= count r /\
              exists frame,
                nth_error (src_frames src) (Z.to_nat (frame_index r))
                  = Some frame /\
                frame <> [] /\
                count r = Z.of_nat (length frame) /\
                boxes r = map detection_of frame)
           (sum_reported_frames summary) /\
    sum_total_detections summary = count_boxes (src_frames src).
Proof.
  intros src summary H. unfold detect_and_annotate in H.
  destruct (negb (is_opened src)); [discriminate|].
  destruct ((src_width src =? 0) || (src_height src =? 0)); [discriminate|].
  destruct (negb (writer_ok src)); [discriminate|].
  destruct (total_frames (run_frames norm mean (src_frames src)) =? 0);
    [discriminate|].
  injection H as <-. cbn [sum_reported_frames sum_total_detections].
  unfold run_frames.
  rewrite fold_reported, fold_total_detections.
  change (Z.to_nat MAX_REPORTED_FRAMES
          - length (reported_frames initial_state))%nat with 50%nat.
  cbn [reported_frames total_frames total_detections initial_state app].
  rewrite Z.add_0_l.
  split; [reflexivity|].
  split; [apply firstn_le_length|].
  split; [|reflexivity].
  apply Forall_firstn.
  eapply Forall_impl; [|apply detection_reports_sound].
  intros r (Hle & frame & Hn & Hne & Hc & Hb).
  rewrite Z.sub_0_r in Hn.
  split; [exact Hle|]. split.
  - rewrite Hc. destruct frame; [contradiction|]. simpl length. lia.
  - exists frame. auto.
Qed.

(** C8 - when the capture opened, the dimensions are non-zero and the
    encoder was initialised, a frame loop that ends with
    total_frames = 0 makes the function raise the "No frames detected"
    error and return no summary; and whatever the input, a summary that
    is returned has total_frames different from 0. *)
Theorem zero_frames_raises :
  (forall (src : VideoSource),
      is_opened src = true ->
      src_width src <> 0 -> src_height src <> 0 ->
      writer_ok src = true ->
      total_frames (run_frames norm mean (src_frames src)) = 0 ->
      detect_and_annotate norm mean src =
        inl (ValueError
               "No frames detected; the uploaded file may be corrupted.") /\
      src_frames src = [])
  /\
  (forall (src : VideoSource) (summary : RunSummary),
      detect_and_annotate norm mean src = inr summary ->
      sum_total_frames summary <> 0 /\
      sum_total_frames summary = Z.of_nat (length (src_frames src)) /\
      src_frames src <> []).
Proof.
  split.
  - intros src Ho Hw Hh Hwr Hz. unfold detect_and_annotate.
    rewrite Ho, Hwr. simpl.
    apply Z.eqb_neq in Hw, Hh. rewrite Hw, Hh. simpl.
    rewrite Hz. simpl. split; [reflexivity|].
    unfold run_frames in Hz. rewrite fold_total_frames in Hz. simpl in Hz.
    destruct (src_frames src); [reflexivity|]. simpl length in Hz. lia.
  - intros src summary H. unfold detect_and_annotate in H.
    destruct (negb (is_opened src)); [discriminate|].
    destruct ((src_width src =? 0) || (src_height src =? 0));
      [discriminate|].
    destruct (negb (writer_ok src)); [discriminate|].
    destruct (Z.eqb_spec
                (total_frames (run_frames norm mean (src_frames src))) 0)
      as [|Hnz]; [discriminate|].
    injection H as <-. cbn [sum_total_frames].
    split; [exact Hnz|].
    unfold run_frames in *. rewrite fold_total_frames in *. simpl in *.
    split; [reflexivity|].
    intros E. rewrite E in Hnz. now apply Hnz.
Qed.

(** C9 - after every frame of every run, each track of the store has a
    last_detection (set when the track is created, overwritten on each
    match, kept on a miss), so the annotator never takes its skip
    branch: it draws one box per track of the store. *)
Theorem every_track_has_last_detection :
  forall (frames : list (list Box)) (n : nat),
    let st := run_frames norm mean (firstn n frames) in
    Forall (fun t =>
              exists det,
                last_detection t = Some det /\
                annotate_track mean t = Some (det, classify mean t))
           (tracks st) /\
    length (annotate mean (tracks st)) = length (tracks st).
Proof.
  intros frames n st.
  assert (H : Forall (fun t => exists det, last_detection t = Some det)
                     (tracks st)).
  { apply run_frames_inv.
    - intros t det center. now exists det.
    - intros c. now exists (fst c).
    - intros t [det Hd] _. now exists det. }
  split.
  - eapply Forall_impl; [|exact H].
    intros t [det Hd]. exists det. split; [exact Hd|].
    unfold annotate_track. now rewrite Hd.
  - induction H as [|t ts [det Hd] _ IH]; [reflexivity|].
    simpl. unfold annotate_track. rewrite Hd. simpl. now rewrite IH.
Qed.

(** C10 - after every frame of every run, each track of the store has
    0 <= misses <= TRACK_MAX_MISSES (10): a created track and a matched
    track have misses = 0, and an unmatched track is kept only when its
    incremented counter is at most 10. *)
Theorem misses_bounded_at_frame_boundaries :
  forall (frames : list (list Box)) (n : nat),
    Forall (fun t => 0 <= misses t <= TRACK_MAX_MISSES)
           (tracks (run_frames norm mean (firstn n frames))) /\
    (forall c, misses (new_track c) = 0) /\
    (forall t det center, misses (commit norm t det center) = 0) /\
    (forall t updated pool,
       select_match norm t pool = None ->
       misses t + 1 > TRACK_MAX_MISSES ->
       associate_track norm t updated pool = (updated, pool)).
Proof.
  intros frames n. split; [|split; [|split]].
  - apply run_frames_inv.
    + intros t det center. simpl. unfold TRACK_MAX_MISSES. lia.
    + intros c. simpl. unfold TRACK_MAX_MISSES. lia.
    + intros t Ht Hle. simpl. lia.
  - reflexivity.
  - reflexivity.
  - intros t updated pool Hsel Hgt. unfold associate_track.
    rewrite Hsel. simpl.
    destruct (Z.leb_spec (misses t + 1) TRACK_MAX_MISSES); [lia|reflexivity].
Qed.

End Run.

(** * The statements at concrete inputs

    Evaluated with the reference instance [norm2], [mean_seq]. *)

(** Zero detections: the code leaves a store with misses 0 and 10 as it
    is, where ageing would give the single track with misses 1. *)
Lemma zero_detection_frame_does_not_age :
  tracks (process_frame norm2 mean_seq
            (state_with [stale_track 0; stale_track 10]) []) =
    [stale_track 0; stale_track 10] /\
  spec_aged_store [stale_track 0; stale_track 10] = [stale_track 1] /\
  tracks (process_frame norm2 mean_seq
            (state_with [stale_track 0; stale_track 10]) []) <>
    spec_aged_store [stale_track 0; stale_track 10].
Proof.
  split; [reflexivity|]. split; [reflexivity|].
  vm_compute. discriminate.
Qed.

(** A track just created has no samples and is labelled [slow], not
    [normal]. *)
Lemma empty_samples_label_is_not_normal :
  velocity_samples fresh_track = [] /\
  classify mean_seq fresh_track = slow /\
  classify mean_seq fresh_track <> normal.
Proof.
  split; [reflexivity|]. split; [reflexivity|].
  vm_compute. discriminate.
Qed.

Lemma empty_samples_label_is_slow_witness :
  velocity_samples fresh_track = [] /\
  classify mean_seq fresh_track = slow /\
  annotate_track mean_seq fresh_track = Some (box_a, slow).
Proof.
  split; [reflexivity|].
  destruct (empty_samples_label_is_slow mean_seq fresh_track eq_refl)
    as [H1 H2].
  split; [exact H1 | exact (H2 box_a eq_refl)].
Defined.

Lemma nonempty_samples_label_witness :
  classify mean_seq (track_at origin [150%float]) = fast /\
  classify mean_seq (track_at origin [60%float]) = slow /\
  classify mean_seq (track_at origin [70%float; 90%float]) = normal /\
  classify mean_seq (track_at origin [200%float]) = fast /\
  classify mean_seq (track_at origin [10%float]) = slow.
Proof.
  assert (Hne : forall vs x, velocity_samples (track_at origin (x :: vs)) <> [])
    by (intros vs x; discriminate).
  split; [|split; [|split; [|split]]].
  - destruct (nonempty_samples_label mean_seq _ (Hne [] 150%float))
      as (_ & _ & _ & Hexact & _).
    apply Hexact. reflexivity.
  - destruct (nonempty_samples_label mean_seq _ (Hne [] 60%float))
      as (_ & _ & _ & _ & Hexact).
    apply Hexact. reflexivity.
  - destruct (nonempty_samples_label mean_seq _ (Hne [90%float] 70%float))
      as (_ & _ & Hnormal & _).
    apply Hnormal; reflexivity.
  - destruct (nonempty_samples_label mean_seq _ (Hne [] 200%float))
      as (Hfast & _).
    apply Hfast. reflexivity.
  - destruct (nonempty_samples_label mean_seq _ (Hne [] 10%float))
      as (_ & Hslow & _).
    apply Hslow. reflexivity.
Defined.

Lemma unmatched_track_ages_or_is_evicted_witness :
  select_match norm2 (stale_track 9) far_pool = None /\
  associate_track norm2 (stale_track 9) [] far_pool =
    ([stale_track 10], far_pool) /\
  associate_track norm2 (stale_track 10) [] far_pool = ([], far_pool).
Proof.
  split; [reflexivity|]. split.
  - apply (unmatched_track_ages_or_is_evicted norm2 [] [] (stale_track 9)
             [] [] far_pool far_pool eq_refl eq_refl).
  - apply (unmatched_track_ages_or_is_evicted norm2 [] [] (stale_track 10)
             [] [] far_pool far_pool eq_refl eq_refl).
Defined.

Lemma match_commits_and_leftovers_spawn_witness :
  In (box_b, (30%float, 40%float)) mixed_pool /\
  PrimFloat.leb (norm2 (vsub (30%float, 40%float) (position fresh_track)))
                TRACK_DISTANCE_THRESHOLD = true /\
  (exists idx det center,
      nth_error mixed_pool idx = Some (det, center) /\
      associate_track norm2 fresh_track [] mixed_pool =
        ([ {| position := center;
              velocity_samples :=
                [norm2 (vsub center (position fresh_track))];
              misses := 0;
              last_detection := Some det |} ],
         pop idx mixed_pool)) /\
  update_tracks norm2 [fresh_track] (map fst mixed_pool) (map snd mixed_pool) =
    [ {| position := (30%float, 40%float);
         velocity_samples := [50%float];
         misses := 0;
         last_detection := Some box_b |};
      {| position := (200%float, 0%float);
         velocity_samples := [];
         misses := 0;
         last_detection := Some box_a |} ].
Proof.
  destruct (match_commits_and_leftovers_spawn norm2) as [Hcommit Hspawn].
  assert (Hin : In (box_b, (30%float, 40%float)) mixed_pool)
    by (right; left; reflexivity).
  split; [exact Hin|]. split; [reflexivity|]. split.
  - destruct (Hcommit fresh_track [] mixed_pool _ Hin eq_refl)
      as (idx & det & center & Hn & _ & _ & Hstep & _ & _).
    exists idx, det, center. split; [exact Hn | exact Hstep].
  - rewrite Hspawn by discriminate. reflexivity.
Defined.

Lemma matching_is_one_to_one_and_greedy_witness :
  let first := track_at origin [] in
  let second := track_at (50%float, 0%float) [] in
  let center := (40%float, 0%float) in
  select_match norm2 first contested_pool = Some (0%nat, box_b, center) /\
  PrimFloat.ltb (norm2 (vsub center (position second)))
                (norm2 (vsub center (position first))) = true /\
  associate_tracks norm2 [first; second] [] contested_pool =
    ([commit norm2 first box_b center; miss second], []) /\
  assignment norm2 [first; second] contested_pool =
    [Some (box_b, center); None] /\
  Permutation
    (claimed (assignment norm2 [first; second] contested_pool) ++
     snd (associate_tracks norm2 [first; second] [] contested_pool))
    contested_pool.
Proof.
  intros first second center.
  destruct (matching_is_one_to_one_and_greedy norm2) as [Hone Hgreedy].
  destruct (Hone [first; second] [] contested_pool) as (_ & Hperm & _).
  destruct (Hgreedy first [second] [] contested_pool 0%nat box_b center
              eq_refl)
    as (Ha & Hloop & _).
  split; [reflexivity|]. split; [reflexivity|].
  split; [rewrite Hloop; reflexivity|].
  split; [rewrite Ha; reflexivity|].
  exact Hperm.
Defined.

Lemma reported_frames_capped_total_counts_all_witness :
  exists summary,
    detect_and_annotate norm2 mean_seq (steady_source 60) = inr summary /\
    sum_total_frames summary = 60 /\
    length (sum_reported_frames summary) = 50%nat /\
    sum_reported_frames summary =
      firstn 50 (detection_reports 0 (src_frames (steady_source 60))) /\
    sum_total_detections summary = 60.
Proof.
  destruct (detect_and_annotate norm2 mean_seq (steady_source 60))
    as [e|summary] eqn:E.
  - vm_compute in E. discriminate.
  - exists summary.
    destruct (reported_frames_capped_total_counts_all
                norm2 mean_seq (steady_source 60) summary E)
      as (Hrep & _ & _ & Htot).
    split; [reflexivity|].
    split; [vm_compute in E; injection E as <-; reflexivity|].
    split; [rewrite Hrep; reflexivity|].
    split; [exact Hrep|].
    rewrite Htot. reflexivity.
Defined.

Lemma zero_frames_raises_witness :
  total_frames (run_frames norm2 mean_seq (src_frames (steady_source 0))) = 0 /\
  detect_and_annotate norm2 mean_seq (steady_source 0) =
    inl (ValueError
           "No frames detected; the uploaded file may be corrupted.") /\
  (forall summary,
     detect_and_annotate norm2 mean_seq (steady_source 3) = inr summary ->
     sum_total_frames summary = 3).
Proof.
  destruct (zero_frames_raises norm2 mean_seq) as [Hzero Hsome].
  split; [reflexivity|]. split.
  - apply (Hzero (steady_source 0)); try reflexivity; discriminate.
  - intros summary H.
    destruct (Hsome _ _ H) as (_ & Hlen & _). exact Hlen.
Defined.

(** ** Further checks on concrete runs *)

(** One detection at centroid (100, 100), then one at (110, 100), then a
    frame without detections: one track, one sample of 10 pixels, and the
    last frame leaves the track as it was. *)
Example three_frame_run :
  map (fun st => map (fun t => (position t, velocity_samples t, misses t))
                     (tracks st))
      [ run_frames norm2 mean_seq [[(80, 60, 40, 80)]];
        run_frames norm2 mean_seq [[(80, 60, 40, 80)]; [(90, 60, 40, 80)]];
        run_frames norm2 mean_seq
          [[(80, 60, 40, 80)]; [(90, 60, 40, 80)]; []] ] =
  [ [((100%float, 100%float), [], 0)];
    [((110%float, 100%float), [10%float], 0)];
    [((110%float, 100%float), [10%float], 0)] ].
Proof. vm_compute. reflexivity. Qed.

(** With an empty pool the loop itself would age the store; it is the
    guard on [centers] that keeps it from running. *)
Lemma associate_on_empty_pool_ages norm (ts : list Track) :
  associate norm ts [] [] = spec_aged_store ts.
Proof.
  assert (Hpool : forall u, snd (associate_tracks norm ts u []) = []).
  { induction ts as [|t rest IH]; intros u; [reflexivity|].
    simpl. unfold associate_track. simpl.
    destruct (misses t + 1 <=? TRACK_MAX_MISSES); apply IH. }
  assert (Hout : outcomes norm ts (assignment norm ts []) = spec_aged_store ts).
  { clear Hpool. unfold spec_aged_store.
    induction ts as [|t rest IH]; [reflexivity|].
    simpl. destruct (misses t + 1 <=? TRACK_MAX_MISSES); simpl;
      rewrite IH; auto. }
  pose proof (associate_tracks_outcomes norm ts [] []) as Hu.
  specialize (Hpool []).
  unfold associate. change (combine [] []) with (@nil candidate).
  destruct (associate_tracks norm ts [] []) as [u p]. simpl in *.
  subst. rewrite app_nil_r. exact Hout.
Qed.

(** * Further properties of the tracker *)

Section PoolInvariant.

Variable norm : point -> float.
Variable mean : list float -> float.

(** A property [P] of tracks and a property [Q] of candidates such that
    a match with a [Q]-candidate, the creation from a [Q]-candidate and
    a miss all give [P], and every frame only offers [Q]-candidates. *)
Variable P : Track -> Prop.
Variable Q : candidate -> Prop.
Hypothesis P_commit :
  forall t pool idx det center,
    P t -> Forall Q pool ->
    select_match norm t pool = Some (idx, det, center) ->
    P (commit norm t det center).
Hypothesis P_new : forall c, Q c -> P (new_track c).
Hypothesis P_miss : forall t, P t -> P (miss t).
Hypothesis Q_frame :
  forall frame : list Box,
    Forall Q (combine (map detection_of frame) (map center_of frame)).

Lemma pop_Forall (pool : list candidate) idx x :
  nth_error pool idx = Some x -> Forall Q pool -> Forall Q (pop idx pool).
Proof.
  intros Hn HQ.
  apply (Permutation_Forall (Permutation_sym (pop_nth_error _ _ _ Hn))) in HQ.
  now inversion HQ.
Qed.

Lemma associate_tracks_pool_inv tracks : forall updated pool,
  Forall P tracks -> Forall P updated -> Forall Q pool ->
  Forall P (fst (associate_tracks norm tracks updated pool)) /\
  Forall Q (snd (associate_tracks norm tracks updated pool)).
Proof.
  induction tracks as [|t rest IH]; intros updated pool Ht Hu HQ; simpl.
  - split; assumption.
  - inversion Ht as [|? ? Pt Prest]; subst.
    unfold associate_track.
    destruct (select_match norm t pool) as [[[idx det] center]|] eqn:E;
      simpl.
    + apply IH; [exact Prest| |].
      * apply Forall_app. split; [exact Hu|]. constructor; [|constructor].
        eapply P_commit; eassumption.
      * apply select_match_some in E. destruct E as [Hn _].
        eapply pop_Forall; eassumption.
    + destruct (misses t + 1 <=? TRACK_MAX_MISSES); apply IH; auto.
      apply Forall_app. split; [exact Hu|]. constructor; auto.
Qed.

Lemma update_tracks_pool_inv tracks (frame : list Box) :
  Forall P tracks ->
  Forall P (update_tracks norm tracks
              (map detection_of frame) (map center_of frame)).
Proof.
  intros Ht. destruct frame as [|b f]; [exact Ht|].
  unfold update_tracks. cbn [map]. unfold associate.
  pose proof (associate_tracks_pool_inv tracks []
                (combine (map detection_of (b :: f)) (map center_of (b :: f)))
                Ht (Forall_nil P) (Q_frame (b :: f))) as [Hu Hp].
  cbn [map] in Hu, Hp.
  destruct (associate_tracks norm tracks []
              (combine (detection_of b :: map detection_of f)
                       (center_of b :: map center_of f))) as [u p].
  simpl in Hu, Hp. apply Forall_app. split; [exact Hu|].
  apply Forall_forall. intros t Hin.
  apply in_map_iff in Hin. destruct Hin as (x & <- & Hx).
  apply P_new. revert x Hx. now apply Forall_forall.
Qed.

Lemma run_frames_pool_inv frames :
  Forall P (tracks (run_frames norm mean frames)).
Proof.
  unfold run_frames.
  assert (H : forall st, Forall P (tracks st) ->
                Forall P (tracks (fold_left (process_frame norm mean) frames st))).
  { induction frames as [|f rest IH]; intros st Hst; [exact Hst|].
    cbn [fold_left]. apply IH. rewrite process_frame_tracks.
    now apply update_tracks_pool_inv. }
  apply H. constructor.
Qed.

End PoolInvariant.

Section TrackerFacts.

Variable norm : point -> float.
Variable mean : list float -> float.

(** X1 - after any number of frames, every velocity sample of every
    stored track is at most TRACK_DISTANCE_THRESHOLD (80.0): a sample is
    only appended on a match, and a match needs the distance to be
    within the threshold. *)
Theorem velocity_samples_within_threshold :
  forall (frames : list (list Box)),
    Forall (fun t =>
              Forall (fun v =>
                        PrimFloat.leb v TRACK_DISTANCE_THRESHOLD = true)
                     (velocity_samples t))
           (tracks (run_frames norm mean frames)).
Proof.
  intros frames.
  apply run_frames_pool_inv with (Q := fun _ => True).
  - intros t pool idx det center Ht _ Hsel. simpl.
    apply Forall_app. split; [exact Ht|].
    constructor; [|constructor].
    apply (select_match_some norm _ _ _ _ _ Hsel).
  - intros c _. constructor.
  - intros t Ht. exact Ht.
  - intros frame. apply Forall_forall. intros; exact I.
Qed.

Lemma box_of_detection_of (b : Box) : box_of (detection_of b) = b.
Proof. destruct b as [[[x y] w] h]. reflexivity. Qed.

(** X2 - after any number of frames, the position of every stored track
    is the centroid of the box in its last_detection: both are set
    together at creation and on a match, and a miss changes neither. *)
Theorem position_is_centroid_of_last_detection :
  forall (frames : list (list Box)),
    Forall (fun t =>
              exists det,
                last_detection t = Some det /\
                position t = center_of (box_of det))
           (tracks (run_frames norm mean frames)).
Proof.
  intros frames.
  apply run_frames_pool_inv
    with (Q := fun c => snd c = center_of (box_of (fst c))).
  - intros t pool idx det center _ HQ Hsel.
    apply select_match_some in Hsel. destruct Hsel as [Hn _].
    apply nth_error_In in Hn.
    exists det. split; [reflexivity|].
    apply (proj1 (Forall_forall _ _) HQ _ Hn).
  - intros c Hc. exists (fst c). split; [reflexivity | exact Hc].
  - intros t Ht. exact Ht.
  - intros frame. induction frame as [|b f IH]; [constructor|].
    cbn [map combine]. constructor; [|exact IH].
    cbn [fst snd]. now rewrite box_of_detection_of.
Qed.

Lemma seen_now_outcomes tracks : forall pool,
  Forall (fun t => 0 <= misses t) tracks ->
  map shown (filter seen_now
               (outcomes norm tracks (assignment norm tracks pool))) =
  map (fun c : candidate => (Some (fst c), snd c))
      (claimed (assignment norm tracks pool)).
Proof.
  induction tracks as [|t rest IH]; intros pool Ht; [reflexivity|].
  inversion Ht as [|? ? Hm Hrest]; subst. simpl.
  destruct (select_match norm t pool) as [[[idx det] center]|]; simpl.
  - unfold shown at 1. simpl. f_equal. apply IH, Hrest.
  - rewrite filter_app.
    assert (Hnone : filter seen_now
                      (if misses t + 1 <=? TRACK_MAX_MISSES
                       then [miss t] else []) = []).
    { destruct (misses t + 1 <=? TRACK_MAX_MISSES); [|reflexivity].
      simpl. unfold seen_now. simpl.
      destruct (Z.eqb_spec (misses t + 1) 0); [lia|reflexivity]. }
    rewrite Hnone. simpl. apply IH, Hrest.
Qed.

Lemma combine_frame (frame : list Box) :
  combine (map detection_of frame) (map center_of frame) =
  map (fun b => (detection_of b, center_of b)) frame.
Proof.
  induction frame as [|b f IH]; [reflexivity|]. simpl. now rewrite IH.
Qed.

(** X3 - after a frame with at least one detection, the stored tracks
    with misses = 0 correspond one-to-one to the detections of that
    frame: listing their (last_detection, position) gives, up to order,
    the (detection, centroid) pairs of the frame. *)
Theorem seen_tracks_are_the_frame_detections :
  forall (frames : list (list Box)) (frame : list Box),
    frame <> [] ->
    Permutation
      (map shown
         (filter seen_now
            (tracks (run_frames norm mean (frames ++ [frame])))))
      (map (fun b => (Some (detection_of b), center_of b)) frame).
Proof.
  intros frames frame Hne.
  unfold run_frames. rewrite fold_left_app. cbn [fold_left].
  rewrite process_frame_tracks.
  fold (run_frames norm mean frames).
  assert (Hpos : Forall (fun t => 0 <= misses t)
                        (tracks (run_frames norm mean frames))).
  { apply run_frames_inv; simpl; intros; lia. }
  set (ts := tracks (run_frames norm mean frames)) in *.
  destruct frame as [|b f]; [contradiction|].
  unfold update_tracks. cbn [map]. unfold associate.
  change (combine (detection_of b :: map detection_of f)
                  (center_of b :: map center_of f))
    with (combine (map detection_of (b :: f)) (map center_of (b :: f))).
  set (pool := combine (map detection_of (b :: f)) (map center_of (b :: f))).
  pose proof (associate_tracks_outcomes norm ts [] pool) as Hu.
  pose proof (assignment_partition norm ts [] pool) as Hperm.
  destruct (associate_tracks norm ts [] pool) as [u p]. simpl in Hu, Hperm.
  subst u. rewrite filter_app, map_app.
  rewrite (seen_now_outcomes ts pool Hpos).
  assert (Hnew : map shown (filter seen_now (map new_track p)) =
                 map (fun c : candidate => (Some (fst c), snd c)) p).
  { clear. induction p as [|c p IH]; [reflexivity|].
    simpl. now rewrite IH. }
  rewrite Hnew, <- map_app.
  assert (E : map (fun c : candidate => (Some (fst c), snd c)) pool =
              map (fun b0 => (Some (detection_of b0), center_of b0)) (b :: f)).
  { unfold pool. rewrite combine_frame, map_map. reflexivity. }
  eapply Permutation_trans; [apply Permutation_map, Hperm|].
  rewrite E. apply Permutation_refl.
Qed.

Lemma outcomes_length tracks : forall pool,
  (length (claimed (assignment norm tracks pool)) <=
   length (outcomes norm tracks (assignment norm tracks pool)) <=
   length tracks)%nat.
Proof.
  induction tracks as [|t rest IH]; intros pool; simpl; [lia|].
  destruct (select_match norm t pool) as [[[idx det] center]|]; simpl.
  - specialize (IH (pop idx pool)). lia.
  - specialize (IH pool). rewrite length_app.
    destruct (misses t + 1 <=? TRACK_MAX_MISSES); simpl; lia.
Qed.

Lemma update_tracks_length ts (frame : list Box) :
  frame <> [] ->
  (length frame <=
   length (update_tracks norm ts (map detection_of frame)
             (map center_of frame)) <=
   length ts + length frame)%nat.
Proof.
  intros Hne. destruct frame as [|b f]; [contradiction|].
  unfold update_tracks. cbn [map]. unfold associate.
  change (combine (detection_of b :: map detection_of f)
                  (center_of b :: map center_of f))
    with (combine (map detection_of (b :: f)) (map center_of (b :: f))).
  set (pool := combine (map detection_of (b :: f)) (map center_of (b :: f))).
  pose proof (associate_tracks_outcomes norm ts [] pool) as Hu.
  pose proof (assignment_partition norm ts [] pool) as Hperm.
  pose proof (outcomes_length ts pool) as Hlen.
  destruct (associate_tracks norm ts [] pool) as [u p]. simpl in Hu, Hperm.
  subst u. apply Permutation_length in Hperm.
  rewrite length_app in Hperm. rewrite length_app, length_map.
  assert (Hpool : length pool = length (b :: f)).
  { unfold pool. rewrite combine_frame, length_map. reflexivity. }
  clearbody pool. unfold candidate in *. cbn [length] in *. lia.
Qed.

(** X4 - the store grows with the detections only: a frame with n >= 1
    detections leaves at least n and at most (tracks before + n) tracks,
    and after any run the number of stored tracks is at most
    total_detections. *)
Theorem store_size_bounded_by_detections :
  (forall (st : LoopState) (frame : list Box),
      frame <> [] ->
      (length frame <= length (tracks (process_frame norm mean st frame))
       <= length (tracks st) + length frame)%nat)
  /\
  (forall (frames : list (list Box)),
      Z.of_nat (length (tracks (run_frames norm mean frames))) <=
      total_detections (run_frames norm mean frames)).
Proof.
  split.
  - intros st frame Hne. rewrite process_frame_tracks.
    now apply update_tracks_length.
  - intros frames. unfold run_frames.
    assert (H : forall st,
               Z.of_nat (length (tracks st)) <= total_detections st ->
               Z.of_nat (length (tracks
                  (fold_left (process_frame norm mean) frames st))) <=
               total_detections
                 (fold_left (process_frame norm mean) frames st)).
    { induction frames as [|f rest IH]; intros st Hst; [exact Hst|].
      cbn [fold_left]. apply IH.
      rewrite process_frame_total_detections, process_frame_tracks.
      destruct f as [|b f']; [simpl; lia|].
      pose proof (update_tracks_length (tracks st) (b :: f')) as Hl.
      specialize (Hl ltac:(discriminate)). lia. }
    apply H. simpl. lia.
Qed.

End TrackerFacts.

(** ** Ties inside one search *)

Lemma ltb_leb_trans x y z :
  PrimFloat.ltb x y = true -> PrimFloat.leb y z = true ->
  PrimFloat.ltb x z = true.
Proof.
  rewrite !FloatAxioms.leb_spec, !FloatAxioms.ltb_spec.
  generalize (Prim2SF x) (Prim2SF y) (Prim2SF z). clear.
  intros a b c. FloatOrder.sf_order.
Qed.

Section FirstNearest.

Variable norm : point -> float.

(** When the search replaces what it started with, the entry it returns
    is strictly closer than the initial bound and than every entry
    before it whose distance is a number. *)
Lemma find_best_first pos pool : forall i0 b d0 b' d',
  find_best norm pos pool i0 b d0 = (b', d') ->
  (b' = b /\ d' = d0) \/
  (exists idx det center,
      b' = Some (idx, det, center) /\ (i0 <= idx)%nat /\
      nth_error pool (idx - i0) = Some (det, center) /\
      d' = norm (vsub center pos) /\
      PrimFloat.ltb d' d0 = true /\
      forall j c,
        (j < idx - i0)%nat -> nth_error pool j = Some c ->
        PrimFloat.leb (norm (vsub (snd c) pos))
                      (norm (vsub (snd c) pos)) = true ->
        PrimFloat.ltb d' (norm (vsub (snd c) pos)) = true).
Proof.
  induction pool as [|[det0 c0] rest IH]; intros i0 b d0 b' d' H;
    simpl in H.
  - injection H as <- <-. now left.
  - destruct (PrimFloat.ltb (norm (vsub c0 pos)) d0) eqn:E;
      apply IH in H;
      destruct H as [[-> ->] | (idx & det & c & -> & Hle & Hn & -> & Hlt & Hbefore)].
    + right. exists i0, det0, c0. rewrite Nat.sub_diag.
      split; [reflexivity|]. split; [lia|]. split; [reflexivity|].
      split; [reflexivity|]. split; [exact E|].
      intros j c Hj. lia.
    + right. exists idx, det, c.
      split; [reflexivity|]. split; [lia|].
      replace (idx - i0)%nat with (S (idx - S i0)) by lia.
      split; [exact Hn|]. split; [reflexivity|].
      split; [eapply FloatOrder.ltb_trans; eassumption|].
      intros [|j] c' Hj Hc' Hnum; simpl in Hc'.
      * injection Hc' as <-. exact Hlt.
      * apply (Hbefore j c'); [lia|assumption|assumption].
    + now left.
    + right. exists idx, det, c.
      split; [reflexivity|]. split; [lia|].
      replace (idx - i0)%nat with (S (idx - S i0)) by lia.
      split; [exact Hn|]. split; [reflexivity|].
      split; [exact Hlt|].
      intros [|j] c' Hj Hc' Hnum; simpl in Hc'.
      * injection Hc' as <-. simpl in *.
        eapply ltb_leb_trans; [exact Hlt|].
        apply FloatOrder.not_ltb; [exact Hnum| |exact E].
        apply (FloatOrder.ltb_ordered _ _ Hlt).
      * apply (Hbefore j c'); [lia|assumption|assumption].
Qed.

(** X5 - among the candidates of the pool, a track takes the first of
    the nearest ones: no candidate is strictly closer than the selected
    one, and every candidate listed before it (whose distance is a
    number) is strictly farther, so equal distances go to the earlier
    detection. *)
Theorem nearest_tie_goes_to_first :
  forall (track : Track) (pool : list candidate) (idx : nat)
         (det : Detection) (center : point),
    select_match norm track pool = Some (idx, det, center) ->
    let d := norm (vsub center (position track)) in
    (forall c, In c pool ->
       PrimFloat.ltb (norm (vsub (snd c) (position track))) d = false) /\
    (forall j c,
       (j < idx)%nat -> nth_error pool j = Some c ->
       PrimFloat.leb (norm (vsub (snd c) (position track)))
                     (norm (vsub (snd c) (position track))) = true ->
       PrimFloat.ltb d (norm (vsub (snd c) (position track))) = true).
Proof.
  intros track pool idx det center Hsel d.
  split; [apply (select_match_some norm _ _ _ _ _ Hsel)|].
  unfold select_match in Hsel.
  destruct (find_best norm (position track) pool 0 None infinity)
    as [b d'] eqn:E.
  destruct b as [m|]; [|discriminate].
  destruct (PrimFloat.leb d' TRACK_DISTANCE_THRESHOLD); [|discriminate].
  injection Hsel as ->.
  apply find_best_first in E.
  destruct E as [[? _] | (i & det' & c' & Hm & _ & _ & -> & _ & Hbefore)];
    [discriminate|].
  injection Hm as <- <- <-. rewrite Nat.sub_0_r in Hbefore.
  exact Hbefore.
Qed.

End FirstNearest.

(** * Further properties of a run *)

Lemma count_boxes_filter (frames : list (list Box)) :
  count_boxes (filter has_boxes frames) = count_boxes frames.
Proof.
  induction frames as [|[|b f] rest IH]; simpl; [reflexivity|exact IH|].
  now rewrite IH.
Qed.

Lemma count_detected_filter (frames : list (list Box)) :
  count_detected (filter has_boxes frames) = count_detected frames.
Proof.
  induction frames as [|[|b f] rest IH]; simpl; [reflexivity|exact IH|].
  now rewrite IH.
Qed.

Lemma count_detected_bounds (frames : list (list Box)) :
  0 <= count_detected frames <= Z.of_nat (length frames) /\
  count_detected frames <= count_boxes frames.
Proof.
  induction frames as [|[|b f] rest IH];
    cbn [count_detected count_boxes length]; lia.
Qed.

Lemma detection_reports_length (frames : list (list Box)) : forall start,
  Z.of_nat (length (detection_reports start frames)) = count_detected frames.
Proof.
  induction frames as [|[|b f] rest IH]; intros start;
    cbn [detection_reports count_detected length]; [reflexivity| |].
  - apply IH.
  - rewrite <- (IH (start + 1)). lia.
Qed.

Lemma StronglySorted_firstn {A : Type} (R : A -> A -> Prop) (l : list A) :
  forall n, StronglySorted R l -> StronglySorted R (firstn n l).
Proof.
  induction l as [|a l IH]; intros [|n] H; simpl; try constructor.
  - apply IH. now inversion H.
  - apply Forall_firstn. now inversion H.
Qed.

Lemma detection_reports_indices (frames : list (list Box)) : forall start,
  StronglySorted Z.lt (map frame_index (detection_reports start frames)) /\
  Forall (fun i => start <= i < start + Z.of_nat (length frames))
         (map frame_index (detection_reports start frames)).
Proof.
  induction frames as [|f rest IH]; intros start.
  - split; constructor.
  - destruct (IH (start + 1)) as [Hs Hb].
    assert (Hb' : Forall (fun i => start + 1 <= i /\
                            start <= i < start + Z.of_nat (length (f :: rest)))
                         (map frame_index (detection_reports (start + 1) rest))).
    { eapply Forall_impl; [|exact Hb]. cbv beta. cbn [length].
      intros i Hi. lia. }
    destruct f as [|b f'].
    + split; [exact Hs|].
      eapply Forall_impl; [|exact Hb']. intros i Hi. apply Hi.
    + cbn [detection_reports map frame_index]. split.
      * constructor; [exact Hs|].
        eapply Forall_impl; [|exact Hb']. cbv beta. intros i Hi. lia.
      * constructor; [cbn [length]; lia|].
        eapply Forall_impl; [|exact Hb']. intros i Hi. apply Hi.
Qed.

Section RunFacts.

Variable norm : point -> float.
Variable mean : list float -> float.

Lemma process_frame_frames_with_detections st frame :
  frames_with_detections (process_frame norm mean st frame) =
  frames_with_detections st + (if has_boxes frame then 1 else 0).
Proof.
  unfold process_frame, record_detections.
  destruct frame as [|b f]; cbn [map frames_with_detections has_boxes]; lia.
Qed.

Lemma fold_frames_with_detections frames : forall st,
  frames_with_detections (fold_left (process_frame norm mean) frames st) =
  frames_with_detections st + count_detected frames.
Proof.
  induction frames as [|f rest IH]; intros st.
  - simpl. lia.
  - cbn [fold_left]. rewrite IH, process_frame_frames_with_detections.
    destruct f; cbn [has_boxes count_detected]; lia.
Qed.

Lemma process_frame_written st frame :
  written (process_frame norm mean st frame) =
  written st ++ [annotate mean (tracks (process_frame norm mean st frame))].
Proof.
  unfold process_frame, record_detections; simpl.
  destruct (map detection_of frame); reflexivity.
Qed.

Lemma run_frames_snoc frames frame :
  run_frames norm mean (frames ++ [frame]) =
  process_frame norm mean (run_frames norm mean frames) frame.
Proof. unfold run_frames. now rewrite fold_left_app. Qed.

Lemma fold_tracks_skip_empty frames : forall st st',
  tracks st = tracks st' ->
  tracks (fold_left (process_frame norm mean) frames st) =
  tracks (fold_left (process_frame norm mean) (filter has_boxes frames) st').
Proof.
  induction frames as [|f rest IH]; intros st st' H; [exact H|].
  cbn [fold_left filter]. destruct f as [|b f'].
  - simpl has_boxes. cbv iota. apply IH.
    rewrite process_frame_tracks. exact H.
  - simpl has_boxes. cbv iota. cbn [fold_left]. apply IH.
    rewrite !process_frame_tracks. now rewrite H.
Qed.

(** X6 - frames without detections are invisible to the tracker and to
    the detection counters: dropping them from the input gives the same
    final track store, the same frames_with_detections and the same
    total_detections; only total_frames sees them. *)
Theorem frames_without_detections_are_skipped :
  forall (frames : list (list Box)),
    let all := run_frames norm mean frames in
    let kept := run_frames norm mean (filter has_boxes frames) in
    tracks all = tracks kept /\
    frames_with_detections all = frames_with_detections kept /\
    total_detections all = total_detections kept /\
    total_frames all = Z.of_nat (length frames).
Proof.
  intros frames all kept. unfold all, kept, run_frames.
  split; [now apply fold_tracks_skip_empty|].
  rewrite !fold_frames_with_detections, !fold_total_detections,
    fold_total_frames.
  rewrite count_detected_filter, count_boxes_filter. simpl.
  repeat split; reflexivity.
Qed.

(** X7 - one annotated frame is written per frame read, in order, and
    the k-th written frame is annotated from the track store as it is
    right after frame k has been associated. *)
Theorem written_frames_follow_the_store :
  forall (frames : list (list Box)),
    let st := run_frames norm mean frames in
    Z.of_nat (length (written st)) = total_frames st /\
    written st =
      map (fun k => annotate mean
                      (tracks (run_frames norm mean (firstn (S k) frames))))
          (seq 0 (length frames)).
Proof.
  intros frames. cbv zeta.
  induction frames as [|f frames IH] using rev_ind.
  - split; reflexivity.
  - destruct IH as [IHlen IHw].
    rewrite run_frames_snoc, process_frame_written,
      process_frame_total_frames, <- run_frames_snoc.
    split.
    + rewrite length_app. simpl length. lia.
    + rewrite length_app. simpl length. rewrite Nat.add_1_r, seq_S, map_app.
      cbn [map]. f_equal.
      * rewrite IHw. apply map_ext_in. intros k Hk.
        apply in_seq in Hk. cbv beta.
        rewrite firstn_app.
        replace (S k - length frames)%nat with 0%nat by lia.
        simpl. now rewrite app_nil_r.
      * rewrite firstn_all2 by (rewrite length_app; simpl; lia).
        reflexivity.
Qed.

(** X8 - the counters of a returned summary agree with each other and
    with the input: total_frames is the number of frames read,
    frames_with_detections the number of frames with a box, so
    0 < total_frames, 0 <= frames_with_detections <= total_frames and
    frames_with_detections <= total_detections; reported_frames has
    min(50, frames_with_detections) entries. *)
Theorem summary_counters_are_consistent :
  forall (src : VideoSource) (summary : RunSummary),
    detect_and_annotate norm mean src = inr summary ->
    sum_total_frames summary = Z.of_nat (length (src_frames src)) /\
    sum_frames_with_detections summary = count_detected (src_frames src) /\
    0 < sum_total_frames summary /\
    0 <= sum_frames_with_detections summary <= sum_total_frames summary /\
    sum_frames_with_detections summary <= sum_total_detections summary /\
    Z.of_nat (length (sum_reported_frames summary)) =
      Z.min 50 (sum_frames_with_detections summary).
Proof.
  intros src summary H. unfold detect_and_annotate in H.
  destruct (negb (is_opened src)); [discriminate|].
  destruct ((src_width src =? 0) || (src_height src =? 0)); [discriminate|].
  destruct (negb (writer_ok src)); [discriminate|].
  destruct (Z.eqb_spec
              (total_frames (run_frames norm mean (src_frames src))) 0)
    as [|Hnz]; [discriminate|].
  injection H as <-.
  cbn [sum_total_frames sum_frames_with_detections sum_total_detections
       sum_reported_frames].
  unfold run_frames in *.
  rewrite fold_total_frames in Hnz.
  rewrite fold_total_frames, fold_frames_with_detections,
    fold_total_detections, fold_reported.
  cbn [total_frames frames_with_detections total_detections reported_frames
       initial_state app length] in *.
  pose proof (count_detected_bounds (src_frames src)) as [Hb1 Hb2].
  pose proof (detection_reports_length (src_frames src) 0) as Hlen.
  rewrite length_firstn.
  unfold MAX_REPORTED_FRAMES. lia.
Qed.

(** X9 - the frame_index values of reported_frames are strictly
    increasing and each lies in [0, total_frames): the reports are in
    frame order and no frame is reported twice. *)
Theorem reported_indices_increase :
  forall (frames : list (list Box)),
    let st := run_frames norm mean frames in
    StronglySorted Z.lt (map frame_index (reported_frames st)) /\
    Forall (fun r => 0 <= frame_index r < total_frames st)
           (reported_frames st).
Proof.
  intros frames st. unfold st, run_frames.
  rewrite fold_reported, fold_total_frames.
  cbn [reported_frames total_frames initial_state app].
  destruct (detection_reports_indices frames 0) as [Hs Hb].
  split.
  - rewrite <- firstn_map. now apply StronglySorted_firstn.
  - apply Forall_firstn. rewrite Forall_map in Hb. exact Hb.
Qed.


End RunFacts.

(** ** The frame rate *)

(** X11 - the frame rate given to the encoder is 24.0 when the capture
    reports zero, 1.0 when it reports a non-zero rate below 1.0
    (negative rates included), the reported rate otherwise; whenever
    the reported rate is a number, the result is at least 1.0. *)
Theorem writer_fps_at_least_one :
  forall (fps : float),
    (PrimFloat.eqb fps 0%float = true -> writer_fps fps = 24.0%float) /\
    (PrimFloat.eqb fps 0%float = false -> PrimFloat.ltb fps 1.0%float = true ->
     writer_fps fps = 1.0%float) /\
    (PrimFloat.eqb fps 0%float = false -> PrimFloat.ltb fps 1.0%float = false ->
     writer_fps fps = fps) /\
    (PrimFloat.leb fps fps = true ->
     PrimFloat.leb 1.0%float (writer_fps fps) = true).
Proof.
  intros fps. unfold writer_fps, fps_or_default, py_max.
  destruct (PrimFloat.eqb fps 0%float) eqn:Ez.
  - repeat split; intros; try discriminate; reflexivity.
  - destruct (PrimFloat.ltb fps 1.0%float) eqn:El.
    + repeat split; intros; try discriminate; reflexivity.
    + repeat split; intros; try discriminate; try reflexivity.
      apply FloatOrder.not_ltb; [assumption|reflexivity|exact El].
Qed.

(** * [_load_allowed_origins] *)

Lemma split_comma_not_nil (s : pystr) : split_comma s <> [].
Proof.
  induction s as [|c rest IH]; simpl; [discriminate|].
  destruct (N.eqb c comma); [discriminate|].
  destruct (split_comma rest); discriminate.
Qed.

Lemma join_comma_cons (piece : pystr) (rest : list pystr) :
  rest <> [] -> join_comma (piece :: rest) = piece ++ comma :: join_comma rest.
Proof. destruct rest; [contradiction|reflexivity]. Qed.

Lemma split_comma_app (a b : pystr) :
  split_comma (a ++ comma :: b) = split_comma a ++ split_comma b.
Proof.
  induction a as [|c a IH]; simpl.
  - reflexivity.
  - destruct (N.eqb c comma); [now rewrite IH|].
    rewrite IH.
    pose proof (split_comma_not_nil a) as Hne.
    destruct (split_comma a) as [|piece pieces]; [contradiction|reflexivity].
Qed.

Lemma split_comma_pieces (s : pystr) :
  Forall (fun piece => ~ In comma piece) (split_comma s).
Proof.
  induction s as [|c rest IH]; simpl.
  - constructor; [intros []|constructor].
  - destruct (N.eqb_spec c comma) as [->|Hc].
    + constructor; [intros []|exact IH].
    + destruct (split_comma rest) as [|piece pieces].
      * constructor; [|constructor]. intros [H|[]]. congruence.
      * inversion IH as [|? ? Hp Hps]; subst.
        constructor; [|exact Hps]. intros [H|H]; [congruence|auto].
Qed.

Section OriginFacts.

Variable is_space : N -> bool.

Lemma lstrip_blank (s : pystr) :
  lstrip is_space s = [] <-> forallb is_space s = true.
Proof.
  induction s as [|c rest IH]; simpl; [tauto|].
  destruct (is_space c); simpl; [exact IH|].
  split; discriminate.
Qed.

Lemma lstrip_head (s : pystr) c t :
  lstrip is_space s = c :: t -> is_space c = false.
Proof.
  induction s as [|a rest IH]; simpl; [discriminate|].
  destruct (is_space a) eqn:E; [exact IH|].
  intros H. injection H as <- _. exact E.
Qed.

Lemma lstrip_In (s : pystr) c : In c (lstrip is_space s) -> In c s.
Proof.
  induction s as [|a rest IH]; simpl; [tauto|].
  destruct (is_space a); [auto|]. simpl. tauto.
Qed.

Lemma lstrip_snoc (l : pystr) c :
  is_space c = false ->
  lstrip is_space (l ++ [c]) = lstrip is_space l ++ [c].
Proof.
  intros Hc. induction l as [|a l IH]; simpl.
  - now rewrite Hc.
  - destruct (is_space a); [exact IH|reflexivity].
Qed.

Lemma rstrip_cons (t : pystr) c :
  is_space c = false -> rstrip is_space (c :: t) = c :: rstrip is_space t.
Proof.
  intros Hc. unfold rstrip. simpl rev.
  rewrite lstrip_snoc by exact Hc.
  rewrite rev_app_distr. reflexivity.
Qed.

Lemma rstrip_In (s : pystr) c : In c (rstrip is_space s) -> In c s.
Proof.
  unfold rstrip. intros H. apply in_rev in H. apply lstrip_In in H.
  now apply in_rev.
Qed.

Lemma rstrip_last (s : pystr) d :
  rstrip is_space s <> [] -> is_space (last (rstrip is_space s) d) = false.
Proof.
  unfold rstrip. intros Hne.
  destruct (lstrip is_space (rev s)) as [|c t] eqn:E; [contradiction|].
  simpl rev. rewrite last_last. eapply lstrip_head, E.
Qed.

Lemma rstrip_rstrip (s : pystr) :
  rstrip is_space (rstrip is_space s) = rstrip is_space s.
Proof.
  unfold rstrip. rewrite rev_involutive. f_equal.
  induction (rev s) as [|a l IH]; simpl; [reflexivity|].
  destruct (is_space a) eqn:E; [exact IH|]. simpl. now rewrite E.
Qed.

(** A stripped string is empty or starts and ends with a character that
    is not whitespace; stripping it again changes nothing. *)
Lemma strip_shape (s : pystr) :
  strip is_space (strip is_space s) = strip is_space s /\
  (forall c, In c (strip is_space s) -> In c s) /\
  (strip is_space s <> [] ->
   is_space (hd comma (strip is_space s)) = false /\
   is_space (last (strip is_space s) comma) = false).
Proof.
  unfold strip.
  destruct (lstrip is_space s) as [|c t] eqn:E.
  - repeat split; try reflexivity; try contradiction.
  - pose proof (lstrip_head _ _ _ E) as Hc.
    split; [|split].
    + rewrite (rstrip_cons _ _ Hc). simpl lstrip. rewrite Hc.
      rewrite <- (rstrip_cons _ _ Hc). apply rstrip_rstrip.
    + intros x Hx. apply rstrip_In in Hx. apply lstrip_In. now rewrite E.
    + intros Hne. split; [|now apply rstrip_last].
      rewrite (rstrip_cons _ _ Hc). exact Hc.
Qed.

Lemma strip_blank (s : pystr) :
  forallb is_space s = true -> strip is_space s = [].
Proof.
  intros H. unfold strip. apply lstrip_blank in H. now rewrite H.
Qed.

Lemma split_comma_blank (s : pystr) :
  Forall (fun c => c = comma \/ is_space c = true) s ->
  Forall (fun piece => forallb is_space piece = true) (split_comma s).
Proof.
  induction 1 as [|c rest Hc _ IH]; simpl.
  - constructor; [reflexivity|constructor].
  - destruct (N.eqb_spec c comma) as [->|Hne].
    + constructor; [reflexivity|exact IH].
    + destruct Hc as [->|Hc]; [contradiction|].
      destruct (split_comma rest) as [|piece pieces].
      * constructor; [simpl; now rewrite Hc|constructor].
      * inversion IH as [|? ? Hp Hps]; subst.
        constructor; [simpl; now rewrite Hc, Hp|exact Hps].
Qed.

(** On a non-empty setting the function is the list comprehension. *)
Lemma load_nonempty (s : pystr) :
  s <> [] ->
  load_allowed_origins is_space (Some s) =
  map (strip is_space)
      (filter (fun origin => truthy (strip is_space origin)) (split_comma s)).
Proof. destruct s; [contradiction|reflexivity]. Qed.

(** X12 - with a non-empty ALLOWED_ORIGINS, every origin returned is
    non-empty, contains no comma, consists of characters of the setting,
    and is stripped: it neither starts nor ends with whitespace, and
    stripping it again gives the same string. *)
Theorem allowed_origins_are_clean :
  forall (raw origin : pystr),
    raw <> [] ->
    In origin (load_allowed_origins is_space (Some raw)) ->
    origin <> [] /\
    ~ In comma origin /\
    (forall c, In c origin -> In c raw) /\
    strip is_space origin = origin /\
    is_space (hd comma origin) = false /\
    is_space (last origin comma) = false.
Proof.
  intros raw origin Hne Hin.
  rewrite (load_nonempty raw Hne) in Hin.
  apply in_map_iff in Hin. destruct Hin as (piece & <- & Hp).
  apply filter_In in Hp. destruct Hp as [Hpiece Htruthy].
  destruct (strip_shape piece) as (Hidem & Hsub & Hends).
  assert (Hnn : strip is_space piece <> []).
  { intros E. rewrite E in Htruthy. discriminate. }
  pose proof (proj1 (Forall_forall _ _) (split_comma_pieces raw) _ Hpiece)
    as Hnocomma.
  assert (Hraw : forall c, In c piece -> In c raw).
  { clear - Hpiece. revert piece Hpiece.
    induction raw as [|a rest IH]; simpl; intros piece Hpiece c Hc.
    - destruct Hpiece as [<-|[]]. destruct Hc.
    - destruct (N.eqb a comma).
      + destruct Hpiece as [<-|Hp]; [destruct Hc|]. right. eauto.
      + pose proof (split_comma_not_nil rest) as Hnn.
        destruct (split_comma rest) as [|p ps]; [contradiction|].
        destruct Hpiece as [<-|Hp].
        * destruct Hc as [->|Hc]; [now left|]. right.
          apply (IH p); [now left|exact Hc].
        * right. apply (IH piece); [now right|exact Hc]. }
  split; [exact Hnn|]. split; [intros H; apply Hnocomma, Hsub, H|].
  split; [intros c Hc; apply Hraw, Hsub, Hc|].
  split; [exact Hidem|]. apply Hends, Hnn.
Qed.

(** X13 - an unset or empty ALLOWED_ORIGINS gives the four default
    origins, but a non-empty setting made only of commas and whitespace
    gives the empty list, not the defaults. *)
Theorem blank_setting_allows_nothing :
  forall (raw : pystr),
    raw <> [] ->
    Forall (fun c => c = comma \/ is_space c = true) raw ->
    load_allowed_origins is_space (Some raw) = [] /\
    load_allowed_origins is_space None = DEFAULT_ALLOWED_ORIGINS /\
    load_allowed_origins is_space (Some []) = DEFAULT_ALLOWED_ORIGINS /\
    DEFAULT_ALLOWED_ORIGINS <> [].
Proof.
  intros raw Hne Hblank.
  split; [|repeat split; discriminate].
  rewrite (load_nonempty raw Hne).
  apply split_comma_blank in Hblank.
  induction Hblank as [|piece pieces Hp _ IH]; [reflexivity|].
  simpl. rewrite (strip_blank _ Hp). simpl. exact IH.
Qed.

(** X14 - the setting is read piece by piece: for two non-empty parts,
    the origins of "a,b" are the origins of a followed by the origins of
    b. *)
Theorem allowed_origins_of_joined_settings :
  forall (a b : pystr),
    a <> [] -> b <> [] ->
    load_allowed_origins is_space (Some (a ++ comma :: b)) =
    load_allowed_origins is_space (Some a) ++
    load_allowed_origins is_space (Some b).
Proof.
  intros a b Ha Hb.
  rewrite !load_nonempty; try assumption.
  - now rewrite split_comma_app, filter_app, map_app.
  - destruct a; discriminate.
Qed.

End OriginFacts.

(** X15 - splitting at commas loses nothing: joining the pieces with
    commas gives the string back, there is one more piece than there are
    commas, and no piece contains a comma. *)
Theorem split_comma_round_trip :
  forall (s : pystr),
    join_comma (split_comma s) = s /\
    length (split_comma s) = S (count_occ N.eq_dec s comma) /\
    Forall (fun piece => ~ In comma piece) (split_comma s).
Proof.
  intros s. split; [|split; [|apply split_comma_pieces]].
  - induction s as [|c rest IH]; [reflexivity|]. simpl.
    destruct (N.eqb_spec c comma) as [->|Hc].
    + rewrite join_comma_cons by apply split_comma_not_nil.
      simpl. now rewrite IH.
    + pose proof (split_comma_not_nil rest) as Hnn.
      destruct (split_comma rest) as [|piece pieces]; [contradiction|].
      destruct pieces as [|p ps]; simpl in *; now rewrite <- IH.
  - induction s as [|c rest IH]; [reflexivity|]. simpl.
    destruct (N.eqb_spec c comma) as [->|Hc].
    + destruct (N.eq_dec comma comma); [|contradiction].
      simpl. now rewrite IH.
    + destruct (N.eq_dec c comma); [contradiction|].
      pose proof (split_comma_not_nil rest) as Hnn.
      destruct (split_comma rest) as [|piece pieces]; [contradiction|].
      simpl in *. exact IH.
Qed.

(** * [process_video] *)

Lemma dir_eqb_eq (a b : Dir) : dir_eqb a b = true <-> a = b.
Proof. destruct a, b; simpl; split; congruence. Qed.

Lemma path_eqb_eq (p q : FilePath) : path_eqb p q = true <-> p = q.
Proof.
  destruct p as [d1 n1], q as [d2 n2]. unfold path_eqb. simpl.
  rewrite andb_true_iff, dir_eqb_eq, String.eqb_eq.
  split; [intros [-> ->]; reflexivity | intros H; injection H; auto].
Qed.

Lemma path_eqb_refl (p : FilePath) : path_eqb p p = true.
Proof. now apply path_eqb_eq. Qed.

Lemma path_eqb_neq (p q : FilePath) : p <> q -> path_eqb p q = false.
Proof.
  intros H. destruct (path_eqb p q) eqn:E; [|reflexivity].
  apply path_eqb_eq in E. contradiction.
Qed.

Lemma path_eqb_sym (p q : FilePath) : path_eqb p q = path_eqb q p.
Proof.
  destruct (path_eqb q p) eqn:E.
  - apply path_eqb_eq in E. subst. apply path_eqb_refl.
  - apply path_eqb_neq. intros ->. now rewrite path_eqb_refl in E.
Qed.

(** After the conditional unlink of [p], the file [p] is gone and every
    other file is where it was. *)
Lemma exists_file_unlink (fs : FileSystem) (p q : FilePath) :
  exists_file (unlink_if_exists fs p) q =
  exists_file fs q && negb (path_eqb p q).
Proof.
  unfold unlink_if_exists.
  destruct (exists_file fs p) eqn:Ep.
  - clear Ep. unfold exists_file.
    induction fs as [|r fs IH]; [reflexivity|]. simpl.
    destruct (path_eqb p r) eqn:Epr; simpl.
    + apply path_eqb_eq in Epr. subst r. rewrite IH.
      rewrite (path_eqb_sym q p).
      destruct (path_eqb p q); simpl; [now rewrite andb_false_r|reflexivity].
    + rewrite IH.
      destruct (path_eqb q r) eqn:Eqr; simpl; [|reflexivity].
      apply path_eqb_eq in Eqr. subst r. now rewrite Epr.
  - destruct (path_eqb p q) eqn:Epq; simpl; [|now rewrite andb_true_r].
    apply path_eqb_eq in Epq. subst q. now rewrite Ep.
Qed.

Section HandlerFacts.

Variable norm : point -> float.
Variable mean : list float -> float.
Variable suffix_of : string -> string.

Lemma input_is_not_output video_id name :
  input_path_of suffix_of video_id name <> output_path_of video_id.
Proof. unfold input_path_of, output_path_of. intros H. discriminate H. Qed.


(** X16 - an upload without a file name is refused with status 400, and
    one with a file name but a content type that is missing or does not
    start with "video/" is refused with status 415 (the file name is
    looked at first); in both cases nothing is written or removed. *)
Theorem invalid_upload_is_rejected_untouched :
  forall (file : UploadFile) (video_id : string) (src : VideoSource)
         (output_written : bool) (fs : FileSystem),
    (present (filename file) = false ->
     process_video norm mean suffix_of file video_id src output_written fs =
       (HTTPException 400 "A file must be provided.", fs)) /\
    (present (filename file) = true ->
     match content_type file with
     | Some ct => String.prefix "video/" ct
     | None => false
     end = false ->
     process_video norm mean suffix_of file video_id src output_written fs =
       (HTTPException 415 "Only video uploads are supported.", fs)).
Proof.
  intros file video_id src output_written fs. unfold process_video, present.
  destruct (filename file) as [name|]; [|split; [reflexivity|discriminate]].
  destruct (String.eqb name ""); simpl;
    [split; [reflexivity|discriminate]|].
  split; [discriminate|]. intros _.
  destruct (content_type file) as [ct|]; [|reflexivity].
  intros ->. reflexivity.
Qed.


(** X18 - however the processing ends (summary, ValueError, any other
    exception), the uploaded input file does not exist afterwards and no
    file other than the input and the output is created or removed.
    After an error (status 400 or 500) the output file does not exist
    either; after a success the output file is left as the core left
    it. *)
Theorem request_cleans_up_its_files :
  forall (video_id name : string) (o : Outcome) (fs : FileSystem),
    let input_path := input_path_of suffix_of video_id name in
    let output_path := output_path_of video_id in
    let result := finish_request video_id input_path o fs in
    exists_file (snd result) input_path = false /\
    (forall q, q <> input_path -> q <> output_path ->
               exists_file (snd result) q = exists_file fs q) /\
    match o with
    | Returned summary =>
        exists_file (snd result) output_path = exists_file fs output_path /\
        exists content, fst result = JSONResponse content
    | RaisedValueError msg =>
        exists_file (snd result) output_path = false /\
        fst result = HTTPException 400 msg
    | RaisedOther =>
        exists_file (snd result) output_path = false /\
        fst result = HTTPException 500 "An unexpected error occurred."
    end.
Proof.
  intros video_id name o fs input_path output_path result.
  pose proof (input_is_not_output video_id name) as Hio.
  fold input_path output_path in Hio.
  assert (Hio' : path_eqb input_path output_path = false)
    by now apply path_eqb_neq.
  assert (Hoi : path_eqb output_path input_path = false)
    by (rewrite path_eqb_sym; exact Hio').
  unfold result, finish_request. fold output_path.
  destruct o as [summary|msg|]; cbn [fst snd];
    rewrite ?exists_file_unlink, ?path_eqb_refl, ?Hio', ?Hoi;
    cbn [negb]; rewrite ?andb_false_r, ?andb_true_r.
  - split; [reflexivity|]. split; [|split; [reflexivity|eauto]].
    intros q Hq _. rewrite exists_file_unlink.
    rewrite (path_eqb_neq input_path q) by congruence.
    now rewrite andb_true_r.
  - split; [reflexivity|]. split; [|split; reflexivity].
    intros q Hq Hq'. rewrite !exists_file_unlink.
    rewrite (path_eqb_neq input_path q), (path_eqb_neq output_path q)
      by congruence.
    now rewrite !andb_true_r.
  - split; [reflexivity|]. split; [|split; reflexivity].
    intros q Hq Hq'. rewrite !exists_file_unlink.
    rewrite (path_eqb_neq input_path q), (path_eqb_neq output_path q)
      by congruence.
    now rewrite !andb_true_r.
Qed.

End HandlerFacts.

Section HandlerFiles.

Variable norm : point -> float.
Variable mean : list float -> float.
Variable suffix_of : string -> string.

(** X19 - after a request with a valid upload, the uploaded input file
    does not exist, files other than the input and the output are as
    before, and the output file exists only after a JSON response (when
    the encoder wrote it or it was there before); after a 400 response
    it does not exist. *)
Theorem valid_upload_files :
  forall (name ct video_id : string) (src : VideoSource)
         (output_written : bool) (fs : FileSystem),
    name <> ""%string ->
    String.prefix "video/" ct = true ->
    let file := {| filename := Some name; content_type := Some ct |} in
    let input_path := input_path_of suffix_of video_id name in
    let output_path := output_path_of video_id in
    let result :=
      process_video norm mean suffix_of file video_id src output_written fs in
    exists_file (snd result) input_path = false /\
    (forall q, q <> input_path -> q <> output_path ->
               exists_file (snd result) q = exists_file fs q) /\
    exists_file (snd result) output_path =
      match fst result with
      | JSONResponse _ => output_written || exists_file fs output_path
      | HTTPException _ _ => false
      end.
Proof.
  intros name ct video_id src output_written fs Hname Hct
         file input_path output_path result.
  pose proof (input_is_not_output suffix_of video_id name) as Hio.
  fold input_path output_path in Hio.
  assert (Hio' : path_eqb input_path output_path = false)
    by now apply path_eqb_neq.
  assert (Hoi : path_eqb output_path input_path = false)
    by (rewrite path_eqb_sym; exact Hio').
  assert (Hres : result =
            finish_request video_id input_path (run_core norm mean src)
              (if output_written then output_path :: input_path :: fs
               else input_path :: fs)).
  { unfold result, process_video, file. cbn [filename content_type].
    apply String.eqb_neq in Hname. rewrite Hname, Hct. reflexivity. }
  rewrite Hres. clear Hres result.
  assert (Hfs : forall q,
            exists_file (if output_written
                         then output_path :: input_path :: fs
                         else input_path :: fs) q =
            (output_written && path_eqb q output_path)
            || path_eqb q input_path || exists_file fs q).
  { intros q. unfold exists_file.
    destruct output_written; simpl; [|reflexivity].
    now rewrite orb_assoc. }
  unfold run_core, finish_request. fold output_path.
  destruct (detect_and_annotate norm mean src) as [[msg]|summary];
    cbn [fst snd]; rewrite ?exists_file_unlink, ?Hfs, ?path_eqb_refl,
      ?Hio', ?Hoi; cbn [negb]; rewrite ?andb_false_r, ?andb_true_r.
  - split; [reflexivity|]. split; [|reflexivity].
    intros q Hq Hq'. rewrite !exists_file_unlink, Hfs.
    rewrite (path_eqb_neq input_path q), (path_eqb_neq output_path q),
      (path_eqb_neq q input_path), (path_eqb_neq q output_path)
      by congruence.
    now rewrite andb_false_r, !andb_true_r.
  - split; [reflexivity|]. split.
    + intros q Hq Hq'. rewrite exists_file_unlink, Hfs.
      rewrite (path_eqb_neq input_path q), (path_eqb_neq q input_path),
        (path_eqb_neq q output_path) by congruence.
      now rewrite andb_false_r, andb_true_r.
    + now rewrite orb_false_r.
Qed.

End HandlerFiles.

(** * The further statements at concrete inputs *)

Lemma seen_tracks_are_the_frame_detections_witness :
  Permutation
    (map shown
       (filter seen_now
          (tracks (run_frames norm2 mean_seq
                     ([[(80, 60, 40, 80)]] ++
                      [[(90, 60, 40, 80); (300, 300, 40, 80)]])))))
    [ (Some (mkDetection 90 60 40 80), (110%float, 100%float));
      (Some (mkDetection 300 300 40 80), (320%float, 340%float)) ].
Proof.
  apply (seen_tracks_are_the_frame_detections norm2 mean_seq
           [[(80, 60, 40, 80)]] [(90, 60, 40, 80); (300, 300, 40, 80)]).
  discriminate.
Defined.

Lemma store_size_bounded_by_detections_witness :
  (1 <= length (tracks (process_frame norm2 mean_seq
                          (state_with [fresh_track]) [(10, 20, 40, 80)%Z]))
   <= 2)%nat /\
  Z.of_nat (length (tracks (run_frames norm2 mean_seq
                              (src_frames (steady_source 5))))) <= 5.
Proof.
  destruct (store_size_bounded_by_detections norm2 mean_seq)
    as [Hframe Hrun].
  split.
  - apply (Hframe (state_with [fresh_track]) [(10, 20, 40, 80)]).
    discriminate.
  - apply (Z.le_trans _ _ _ (Hrun (src_frames (steady_source 5)))).
    vm_compute. discriminate.
Defined.

Lemma nearest_tie_goes_to_first_witness :
  select_match norm2 fresh_track mixed_pool =
    Some (1%nat, box_b, (30%float, 40%float)) /\
  select_match norm2 fresh_track tie_pool =
    Some (0%nat, box_a, (30%float, 40%float)) /\
  PrimFloat.ltb (norm2 (vsub (30%float, 40%float) (position fresh_track)))
                (norm2 (vsub (200%float, 0%float) (position fresh_track)))
    = true /\
  PrimFloat.ltb (norm2 (vsub (40%float, 30%float) (position fresh_track)))
                (norm2 (vsub (30%float, 40%float) (position fresh_track)))
    = false.
Proof.
  split; [reflexivity|]. split; [reflexivity|]. split.
  - destruct (nearest_tie_goes_to_first norm2 fresh_track mixed_pool
                1%nat box_b (30%float, 40%float) eq_refl) as [_ Hbefore].
    apply (Hbefore 0%nat (box_a, (200%float, 0%float)));
      [lia|reflexivity|reflexivity].
  - destruct (nearest_tie_goes_to_first norm2 fresh_track tie_pool
                0%nat box_a (30%float, 40%float) eq_refl) as [Hmin _].
    apply (Hmin (box_b, (40%float, 30%float))). right. left. reflexivity.
Defined.

Lemma summary_counters_are_consistent_witness :
  exists summary,
    detect_and_annotate norm2 mean_seq (steady_source 60) = inr summary /\
    sum_total_frames summary = 60 /\
    sum_frames_with_detections summary = 60 /\
    Z.of_nat (length (sum_reported_frames summary)) = 50.
Proof.
  destruct (detect_and_annotate norm2 mean_seq (steady_source 60))
    as [e|summary] eqn:E.
  - vm_compute in E. discriminate.
  - exists summary.
    destruct (summary_counters_are_consistent
                norm2 mean_seq (steady_source 60) summary E)
      as (Htot & Hfwd & _ & _ & _ & Hrep).
    split; [reflexivity|]. split; [rewrite Htot; reflexivity|].
    split; [rewrite Hfwd; reflexivity|].
    rewrite Hrep, Hfwd. reflexivity.
Defined.


Lemma writer_fps_at_least_one_witness :
  writer_fps 0%float = 24%float /\
  writer_fps 0.5%float = 1%float /\
  writer_fps (-5)%float = 1%float /\
  writer_fps 30%float = 30%float /\
  PrimFloat.leb 1%float (writer_fps 25%float) = true.
Proof.
  split; [|split; [|split; [|split]]].
  - apply (writer_fps_at_least_one 0%float). reflexivity.
  - destruct (writer_fps_at_least_one 0.5%float) as (_ & H & _).
    apply H; reflexivity.
  - destruct (writer_fps_at_least_one (-5)%float) as (_ & H & _).
    apply H; reflexivity.
  - destruct (writer_fps_at_least_one 30%float) as (_ & _ & H & _).
    apply H; reflexivity.
  - destruct (writer_fps_at_least_one 25%float) as (_ & _ & _ & H).
    apply H; reflexivity.
Defined.

Lemma allowed_origins_are_clean_witness :
  load_allowed_origins py_is_space (Some sample_setting) =
    [pystr_of "http://a.test"; pystr_of "http://b.test"] /\
  strip py_is_space (pystr_of "http://a.test") = pystr_of "http://a.test" /\
  ~ In comma (pystr_of "http://a.test").
Proof.
  split; [reflexivity|].
  assert (Hne : sample_setting <> []) by discriminate.
  assert (Hin : In (pystr_of "http://a.test")
                   (load_allowed_origins py_is_space (Some sample_setting)))
    by (left; reflexivity).
  destruct (allowed_origins_are_clean py_is_space sample_setting
              (pystr_of "http://a.test") Hne Hin)
    as (_ & Hcomma & _ & Hstrip & _).
  split; [exact Hstrip | exact Hcomma].
Defined.

Lemma blank_setting_allows_nothing_witness :
  load_allowed_origins py_is_space (Some (pystr_of " , ,")) = [].
Proof.
  apply (blank_setting_allows_nothing py_is_space (pystr_of " , ,")).
  - discriminate.
  - repeat first
      [ apply Forall_nil
      | apply Forall_cons;
        [first [left; reflexivity | right; reflexivity]|] ].
Defined.

Lemma allowed_origins_of_joined_settings_witness :
  load_allowed_origins py_is_space
    (Some (pystr_of "http://a.test" ++ comma :: pystr_of " http://b.test ")) =
  [pystr_of "http://a.test"; pystr_of "http://b.test"].
Proof.
  rewrite (allowed_origins_of_joined_settings py_is_space
             (pystr_of "http://a.test") (pystr_of " http://b.test "))
    by discriminate.
  reflexivity.
Defined.

Lemma invalid_upload_is_rejected_untouched_witness :
  process_video norm2 mean_seq sample_suffix
    {| filename := None; content_type := Some "image/png"%string |}
    "abc" (steady_source 3) true [other_file] =
    (HTTPException 400 "A file must be provided.", [other_file]) /\
  process_video norm2 mean_seq sample_suffix
    {| filename := Some "clip.avi"%string;
       content_type := Some "image/png"%string |}
    "abc" (steady_source 3) true [other_file] =
    (HTTPException 415 "Only video uploads are supported.", [other_file]).
Proof.
  split.
  - apply (invalid_upload_is_rejected_untouched norm2 mean_seq sample_suffix).
    reflexivity.
  - apply (invalid_upload_is_rejected_untouched norm2 mean_seq sample_suffix);
      reflexivity.
Defined.


Lemma valid_upload_files_witness :
  exists_file
    (snd (process_video norm2 mean_seq sample_suffix sample_upload "abc"
            (steady_source 0) true [other_file]))
    (UPLOAD_DIR, "abc.avi"%string) = false /\
  exists_file
    (snd (process_video norm2 mean_seq sample_suffix sample_upload "abc"
            (steady_source 0) true [other_file]))
    other_file = true /\
  exists_file
    (snd (process_video norm2 mean_seq sample_suffix sample_upload "abc"
            (steady_source 0) true [other_file]))
    (PROCESSED_DIR, "abc.mp4"%string) = false.
Proof.
  assert (Hname : "clip.avi"%string <> ""%string) by discriminate.
  destruct (valid_upload_files norm2 mean_seq sample_suffix
              "clip.avi" "video/x-msvideo" "abc" (steady_source 0)
              true [other_file] Hname eq_refl) as (Hin & Hother & Hout).
  split; [exact Hin|]. split.
  - unfold sample_upload.
    rewrite (Hother other_file); [reflexivity|discriminate|discriminate].
  - exact Hout.
Defined.
